(** * zoneless-node: webhook verification and the payout settlement pipeline

    A shallow embedding of [src/resources/Webhooks.ts] (header parsing and
    signature verification) and of [src/resources/Payouts.ts] (the batch
    orchestrator [processBatch], the settlement loop [processAll] and the
    local signer), with the properties the specification states about them;
    then of [src/HttpClient.ts] and of the constructor of [src/index.ts],
    with further properties of all four.

    Conventions.
    - A JavaScript string is represented by the sequence of its UTF-8
      bytes, as a [string].  [Buffer.from(s)] and the input of
      [hmac.update(s)] are then the string itself; [split] on the ASCII
      separators [","] and ["="] cuts the same pieces on either
      representation.
    - A JavaScript [number] is represented by [Js.number]: an integer or
      [NaN].  The representation is exact on the safe integers
      ([Js.safe]: absolute value at most 2^53 - 1), among which are the
      unix timestamps, the tolerances and the page limits of every
      use; a theorem that depends on the text or on the arithmetic of a
      number is stated for the numbers of this range ([Js.exact]).
    - Remote calls and exceptions are explicit: a computation takes the
      state of the world (the state of the remote service and the trace of
      the calls made so far) and returns an outcome with the new state.
    - The libraries the sources call ([crypto], [Date], [bs58],
      [@solana/web3.js], the HTTP transport) are parameters of the
      definitions; [Sha256] and [Sample] give instances to compute with. *)

From stdpp Require Import gmap strings list.
From Stdlib Require Import ZArith Ascii DecimalString DecimalPos.

Open Scope Z_scope.

(* ================================================================= *)
(** ** The fragment of JavaScript the sources rely on *)

Module Js.

(** [number]: integers and [NaN].  The program holds doubles: [Num z]
    stands for the double [z] when [z] is one, which every safe integer
    is; fractions and the infinities have no representation. *)
Inductive number : Type :=
| Num (z : Z)
| NaN.

(** [Number.isSafeInteger(z)]: the absolute value of [z] is at most
    2^53 - 1.  On safe integers the functions below are those of the
    program: a safe integer is a double, [parseInt] of its numeral
    returns it, its text is its decimal numeral, and the difference of
    two safe integers, rounded as the program rounds it, exceeds a safe
    integer exactly when the difference itself does. *)
Definition safe (z : Z) : Prop :=
  -9007199254740991 <= z <= 9007199254740991.

(** The number is one the program can hold and on which the functions
    below are exact: [NaN], or a safe integer. *)
Definition exact (n : number) : Prop :=
  match n with
  | Num z => safe z
  | NaN => True
  end.

(** [a - b], not rounded: the program rounds the difference to the
    nearest double, which is the difference itself when its absolute
    value is at most 2^53. *)
Definition sub (a b : number) : number :=
  match a, b with
  | Num x, Num y => Num (x - y)
  | _, _ => NaN
  end.

(** [a > b]: false as soon as one side is [NaN]. *)
Definition gt (a b : number) : bool :=
  match a, b with
  | Num x, Num y => x >? y
  | _, _ => false
  end.

(** [Math.min(a, b)]: [NaN] as soon as one argument is [NaN]. *)
Definition Math_min (a b : number) : number :=
  match a, b with
  | Num x, Num y => Num (Z.min x y)
  | _, _ => NaN
  end.

(** [a ?? b] *)
Definition nullish {A : Type} (a : option A) (b : A) : A :=
  match a with
  | Some x => x
  | None => b
  end.

(** [`${n}`]: the decimal numeral, ["NaN"] for [NaN].  This is the text
    the program makes of a safe integer; the text of a double that is
    not one differs (its digits are those of the shortest numeral that
    reads as the double, with an exponent from 10^21 on). *)
Definition toString (n : number) : string :=
  match n with
  | Num z => NilZero.string_of_int (Z.to_int z)
  | NaN => "NaN"
  end.

(** Truthiness of a string: every string but the empty one. *)
Definition truthy (s : string) : bool :=
  match s with
  | EmptyString => false
  | String _ _ => true
  end.

(** [s.split(sep)] for a one-character separator: the pieces between the
    occurrences of [sep], empty pieces included; never the empty list. *)
Fixpoint split (sep : ascii) (s : string) : list string :=
  match s with
  | EmptyString => [EmptyString]
  | String c rest =>
      if Ascii.eqb c sep then EmptyString :: split sep rest
      else
        match split sep rest with
        | piece :: pieces => String c piece :: pieces
        | [] => [String c EmptyString]
        end
  end.

(** [!s.includes(sep)]: the character [sep] does not occur in [s]. *)
Fixpoint free_of (sep : ascii) (s : string) : bool :=
  match s with
  | EmptyString => true
  | String c rest => negb (Ascii.eqb c sep) && free_of sep rest
  end.

Definition code (c : ascii) : Z := Z.of_N (N_of_ascii c).

(** White space and line terminators of one UTF-8 byte:
    TAB, LF, VT, FF, CR and SP. *)
Definition ws1 (a : ascii) : bool :=
  let n := code a in ((9 <=? n) && (n <=? 13)) || (n =? 32).

(** U+00A0, the only one of two bytes. *)
Definition ws2 (a b : ascii) : bool :=
  (code a =? 194) && (code b =? 160).

(** Those of three bytes: U+1680, U+2000..U+200A, U+2028, U+2029, U+202F,
    U+205F, U+3000 and U+FEFF. *)
Definition ws3 (a b c : ascii) : bool :=
  let '(x, y, z) := (code a, code b, code c) in
  ((x =? 225) && (y =? 154) && (z =? 128))
  || ((x =? 226) && (y =? 128)
      && (((128 <=? z) && (z <=? 138)) || (z =? 168) || (z =? 169) || (z =? 175)))
  || ((x =? 226) && (y =? 129) && (z =? 159))
  || ((x =? 227) && (y =? 128) && (z =? 128))
  || ((x =? 239) && (y =? 187) && (z =? 191)).

(** [TrimString(s, start)]: drops the leading white space. *)
Fixpoint TrimStart (s : string) : string :=
  match s with
  | EmptyString => s
  | String a r1 =>
      if ws1 a then TrimStart r1
      else
        match r1 with
        | EmptyString => s
        | String b r2 =>
            if ws2 a b then TrimStart r2
            else
              match r2 with
              | EmptyString => s
              | String c r3 => if ws3 a b c then TrimStart r3 else s
              end
        end
  end.

(** The value of a decimal digit. *)
Definition digit (c : ascii) : option Z :=
  let n := code c in
  if (48 <=? n) && (n <=? 57) then Some (n - 48) else None.

(** The value of the longest prefix of decimal digits; [None] when that
    prefix is empty.  [acc] is the value of the digits read so far. *)
Fixpoint digits (s : string) (acc : option Z) : option Z :=
  match s with
  | EmptyString => acc
  | String c rest =>
      match digit c with
      | Some d => digits rest (Some (10 * nullish acc 0 + d))
      | None => acc
      end
  end.

(** [parseInt(s, 10)]: leading white space is skipped, one sign is
    accepted, then the longest run of digits is read; whatever follows
    is ignored, and no digit at all gives [NaN].  The value is the
    integer the digits denote, which is what the program gets when this
    integer is safe; beyond, the program gets the nearest double. *)
Definition parseInt (s : string) : number :=
  let trimmed := TrimStart s in
  let '(sign, body) :=
    match trimmed with
    | String "-" rest => (-1, rest)
    | String "+" rest => (1, rest)
    | _ => (1, trimmed)
    end in
  match digits body None with
  | Some mathInt => Num (sign * mathInt)
  | None => NaN
  end.

End Js.

(* ================================================================= *)
(** ** HMAC-SHA256, the instance of [crypto.createHmac] the verifier uses

    FIPS 180-4 and RFC 2104 on 32-bit words kept in [Z].  The definitions
    of the verifier below take the keyed hash as a parameter; this module
    is the function Node.js supplies for it. *)

Module Sha256.

Definition mask : Z := 2 ^ 32 - 1.
Definition add32 (x y : Z) : Z := (x + y) mod 2 ^ 32.
Definition rotr (n x : Z) : Z :=
  Z.lor (Z.shiftr x n) (Z.land (Z.shiftl x (32 - n)) mask).
Definition shr (n x : Z) : Z := Z.shiftr x n.
Definition xor3 (x y z : Z) : Z := Z.lxor (Z.lxor x y) z.

Definition Ch (x y z : Z) : Z :=
  Z.lxor (Z.land x y) (Z.land (Z.lxor x mask) z).
Definition Maj (x y z : Z) : Z :=
  xor3 (Z.land x y) (Z.land x z) (Z.land y z).
Definition Sigma0 (x : Z) : Z := xor3 (rotr 2 x) (rotr 13 x) (rotr 22 x).
Definition Sigma1 (x : Z) : Z := xor3 (rotr 6 x) (rotr 11 x) (rotr 25 x).
Definition sigma0 (x : Z) : Z := xor3 (rotr 7 x) (rotr 18 x) (shr 3 x).
Definition sigma1 (x : Z) : Z := xor3 (rotr 17 x) (rotr 19 x) (shr 10 x).

(** The round constants are the first 32 fractional bits of the cube
    roots of the first 64 primes, the initial state those of the square
    roots of the first 8. *)
Definition upto (lo count : nat) : list Z := map Z.of_nat (seq lo count).

Definition is_prime (n : Z) : bool :=
  forallb (fun d => negb (n mod d =? 0)) (upto 2 (Z.to_nat n - 2)).

Definition primes : list Z := filter is_prime (upto 2 310).

Definition cube_root (n : Z) : Z :=
  fold_left
    (fun r i => let r' := r + 2 ^ i in if r' ^ 3 <=? n then r' else r)
    (rev (upto 0 36)) 0.

Definition K : list Z :=
  Eval vm_compute in map (fun p => cube_root (p * 2 ^ 96) mod 2 ^ 32) primes.

Definition H0 : list Z :=
  Eval vm_compute in map (fun p => Z.sqrt (p * 2 ^ 64) mod 2 ^ 32) (firstn 8 primes).

(** Big-endian bytes of a word, and back. *)
Definition be_bytes (count : nat) (x : Z) : list Z :=
  map (fun i => Z.land (Z.shiftr x (8 * i)) 255) (rev (upto 0 count)).

Definition be_word (bytes : list Z) : Z :=
  fold_left (fun acc b => acc * 256 + b) bytes 0.

Definition pad (msg : list Z) : list Z :=
  let len := Z.of_nat (length msg) in
  msg ++ [128] ++ repeat 0 (Z.to_nat ((55 - len) mod 64)) ++ be_bytes 8 (8 * len).

(** Cuts a list in pieces of [size] elements. *)
Fixpoint chunks {A : Type} (fuel size : nat) (l : list A) : list (list A) :=
  match fuel, l with
  | O, _ | _, [] => []
  | S fuel', _ => firstn size l :: chunks fuel' size (skipn size l)
  end.

Definition pieces {A : Type} (size : nat) (l : list A) : list (list A) :=
  chunks (length l) size l.

(** The message schedule, most recent word first. *)
Fixpoint extend (count : nat) (w : list Z) : list Z :=
  match count with
  | O => w
  | S count' =>
      let word i := nth i w 0 in
      extend count'
        (add32 (add32 (sigma1 (word 1%nat)) (word 6%nat))
               (add32 (sigma0 (word 14%nat)) (word 15%nat)) :: w)
  end.

Definition schedule (block : list Z) : list Z :=
  rev (extend 48 (rev (map be_word (pieces 4 block)))).

Definition round (state : list Z) (kw : Z * Z) : list Z :=
  match state with
  | [a; b; c; d; e; f; g; h] =>
      let t1 := add32 (add32 (add32 h (Sigma1 e)) (Ch e f g))
                      (add32 (fst kw) (snd kw)) in
      let t2 := add32 (Sigma0 a) (Maj a b c) in
      [add32 t1 t2; a; b; c; add32 d t1; e; f; g]
  | _ => state
  end.

Definition compress (state block : list Z) : list Z :=
  let final := fold_left round (combine K (schedule block)) state in
  map (fun xy => add32 (fst xy) (snd xy)) (combine state final).

Definition digest (msg : list Z) : list Z :=
  concat (map (be_bytes 4) (fold_left compress (pieces 64 (pad msg)) H0)).

Definition hmac (key msg : list Z) : list Z :=
  let key := if (64 <? length key)%nat then digest key else key in
  let block := key ++ repeat 0 (64 - length key)%nat in
  let inner := digest (map (Z.lxor 54) block ++ msg) in
  digest (map (Z.lxor 92) block ++ inner).

Definition bytes_of_string (s : string) : list Z :=
  map Js.code (String.list_ascii_of_string s).

Definition hex_digit (n : Z) : ascii :=
  ascii_of_N (Z.to_N (if n <? 10 then 48 + n else 87 + n)).

Definition hex (bytes : list Z) : string :=
  String.string_of_list_ascii
    (concat (map (fun b => [hex_digit (b / 16); hex_digit (b mod 16)]) bytes)).

(** [crypto.createHmac('sha256', secret).update(data).digest('hex')] *)
Definition createHmac_sha256_hex (secret data : string) : string :=
  hex (hmac (bytes_of_string secret) (bytes_of_string data)).

End Sha256.

(* ================================================================= *)
(** ** Webhooks.ts *)

Module Webhooks.

Import Js.

(** [WebhookSignatureVerificationError]: one class, told apart by its
    message. *)
Record WebhookSignatureVerificationError : Type :=
  { message : string }.

(** The three messages [Verify] throws with, under the names the
    specification gives to the three failures. *)
Definition MissingSignatureError : WebhookSignatureVerificationError :=
  {| message := "Unable to extract timestamp and signatures from header" |}.
Definition TimestampToleranceError : WebhookSignatureVerificationError :=
  {| message := "Timestamp outside the tolerance zone" |}.
Definition SignatureMismatchError : WebhookSignatureVerificationError :=
  {| message := "No signatures found matching the expected signature for payload" |}.

Definition DEFAULT_TOLERANCE : number := Num 300.

(** A property of the parsed header: [string | string[]]. *)
Inductive field : Type :=
| One (value : string)
| Many (values : list string).

(** [Array.isArray(x) ? x[0] : x]; reading index 0 of an empty array
    gives [undefined], which [parseInt] reads as the text "undefined". *)
Definition first (x : field) : string :=
  match x with
  | Many values => hd "undefined"%string values
  | One value => value
  end.

(** [Array.isArray(x) ? x : [x]] *)
Definition all (x : field) : list string :=
  match x with
  | Many values => values
  | One value => [value]
  end.

(** The callback of the [reduce] in [ParseHeader].  The destructuring
    [[key, value] = item.split('=')] keeps the first two pieces; a piece
    that is missing or empty is falsy.  The map holds the own properties
    of [acc]: for a key that names a member of [Object.prototype]
    (["constructor"], ["toString"], ...) the test [acc[key]] of the source
    also sees the inherited member, which the map does not show.
    [Verify] reads the keys ["t"] and ["v1"], which are not among them. *)
Definition ParseHeader_step (acc : gmap string field) (item : string)
  : gmap string field :=
  match split "=" item with
  | key :: value :: _ =>
      if truthy key && truthy value then
        match acc !! key with
        | Some (Many values) => <[key := Many (values ++ [value])]> acc
        | Some (One previous) => <[key := Many [previous; value]]> acc
        | None => <[key := One value]> acc
        end
      else acc
  | _ => acc
  end.

Definition ParseHeader (header : string) : gmap string field :=
  foldl ParseHeader_step ∅ (split "," header).

(** The values a parsed header holds for [key]. *)
Definition values (details : gmap string field) (key : string)
  : list string :=
  from_option all [] (details !! key).

(** The header as the specification reads it: the [key=value] pairs of
    its comma-separated items, in order of appearance.  An item is a pair
    when it has a key and a value that are not empty; the value ends at a
    second ["="]. *)
Definition pair_of (item : string) : option (string * string) :=
  match split "=" item with
  | key :: value :: _ =>
      if truthy key && truthy value then Some (key, value) else None
  | _ => None
  end.

Definition pairs (header : string) : list (string * string) :=
  omap pair_of (split "," header).

(** The values given to [key], first seen first. *)
Definition values_of (key header : string) : list string :=
  map snd (filter (fun kv => fst kv = key) (pairs header)).

(** A text that stands for itself as a value of a header: it is not
    empty and holds neither [","] nor ["="].  Decimal numerals and
    hexadecimal digests are such texts. *)
Definition plain (s : string) : Prop :=
  truthy s = true /\ free_of "," s = true /\ free_of "=" s = true.

(** What one item adds to the values of [key]. *)
Definition added (key item : string) : list string :=
  match pair_of item with
  | Some (k, value) => if decide (k = key) then [value] else []
  | None => []
  end.

(** No property holds an empty array: an array is made with two values
    and only ever grows. *)
Definition arrays_inhabited (acc : gmap string field) : Prop :=
  forall key, acc !! key <> Some (Many []).

(** [crypto.timingSafeEqual] on two buffers of one length. *)
Fixpoint timingSafeEqual (a b : string) : bool :=
  match a, b with
  | String x a', String y b' => Ascii.eqb x y && timingSafeEqual a' b'
  | _, _ => true
  end.

(** The callback of [signatures.some]. *)
Definition matches (expectedSignature sig : string) : bool :=
  let bufferA := sig in
  let bufferB := expectedSignature in
  if negb (String.length bufferA =? String.length bufferB)%nat then false
  else timingSafeEqual bufferA bufferB.

Section Verifier.

(** [crypto.createHmac('sha256', secret).update(data).digest('hex')] *)
Variable createHmac_sha256_hex : string -> string -> string.
(** [Date.now()], in milliseconds. *)
Variable Date_now : Z.

Definition signedPayload (timestamp : number) (payload : string) : string :=
  (toString timestamp ++ "." ++ payload)%string.

Definition Verify (payload header secret : string) (tolerance : number)
  : WebhookSignatureVerificationError + unit :=
  let details := ParseHeader header in
  match details !! "t"%string, details !! "v1"%string with
  | Some t, Some v1 =>
      let timestampStr := first t in
      let timestamp := parseInt timestampStr in
      let now := Num (Date_now / 1000) in
      if gt tolerance (Num 0) && gt (sub now timestamp) tolerance then
        inl TimestampToleranceError
      else
        let expectedSignature :=
          createHmac_sha256_hex secret (signedPayload timestamp payload) in
        let signatures := all v1 in
        let match_ := existsb (matches expectedSignature) signatures in
        if negb match_ then inl SignatureMismatchError else inr tt
  | _, _ => inl MissingSignatureError
  end.

(** The object [JSON.parse] returns, cast to [Event]. *)
Variable Event : Type.
(** [JSON.parse(text)]; [None] when it throws a [SyntaxError]. *)
Variable JSON_parse : string -> option Event.

(** What [constructEvent] throws. *)
Inductive Failure : Type :=
| VerificationFailed (e : WebhookSignatureVerificationError)
| SyntaxError.

(** [payload] is the text itself, or a [Buffer] that holds well-formed
    UTF-8, of which [toString()] is the text; an omitted [tolerance] is
    [DEFAULT_TOLERANCE]. *)
Definition constructEvent (payload header secret : string)
    (tolerance : option number) : Failure + Event :=
  let payloadString := payload in
  match Verify payloadString header secret
          (nullish tolerance DEFAULT_TOLERANCE) with
  | inl e => inl (VerificationFailed e)
  | inr _ =>
      match JSON_parse payloadString with
      | Some event => inr event
      | None => inl SyntaxError
      end
  end.

End Verifier.

End Webhooks.

(* ================================================================= *)
(** ** Payouts.ts *)

Module Payouts.

Import Js.

(** *** The values exchanged with the API (types/Payout.ts,
    types/ApiResponse.ts, schemas/PayoutSchema.ts, HttpClient.ts).
    Each interface has a module of its own, so that the fields keep
    their names. *)

Module Payout.
Inductive PayoutStatus : Type :=
| pending | processing | in_transit | paid | failed | canceled.

Record t : Type :=
  { id : string;
    account : string;
    amount : number;
    currency : string;
    destination : string;
    status : PayoutStatus }.
End Payout.

Module ListResponse.
Record t (T : Type) : Type :=
  { url : string;
    has_more : bool;
    data : list T }.
Arguments url {T}.
Arguments has_more {T}.
Arguments data {T}.
End ListResponse.

(** ['paid' | 'failed'] *)
Inductive BatchStatus : Type := paid | failed.

Module PayoutBatchBuildResponse.
Record t : Type :=
  { unsigned_transaction : string;
    estimated_fee_lamports : number;
    blockhash : string;
    last_valid_block_height : number;
    payouts : list Payout.t;
    total_amount : number;
    recipients_count : number }.
End PayoutBatchBuildResponse.

Module PayoutBatchBroadcastResponse.
Record t : Type :=
  { signature : string;
    status : BatchStatus;
    viewer_url : string;
    payouts : list Payout.t;
    failure_message : option string }.
End PayoutBatchBroadcastResponse.

Module ProcessPendingResult.
Record t : Type :=
  { signature : string;
    status : BatchStatus;
    viewer_url : string;
    payouts : list Payout.t;
    total_amount : number;
    has_more : bool;
    failure_message : option string }.
End ProcessPendingResult.

Module Range.
Record t : Type :=
  { gt : option number;
    gte : option number;
    lt : option number;
    lte : option number }.
End Range.

Module ListPayoutsInput.
Record t : Type :=
  { limit : option number;
    starting_after : option string;
    ending_before : option string;
    destination : option string;
    status : option string;
    arrival_date : option Range.t;
    created : option Range.t }.
End ListPayoutsInput.

Module BuildPayoutsBatchInput.
Record t : Type := { payouts : list string }.
End BuildPayoutsBatchInput.

Module BroadcastPayoutsBatchInput.
Record t : Type :=
  { signed_transaction : string;
    payouts : list string }.
End BroadcastPayoutsBatchInput.

Module RequestExtraOptions.
Record t : Type :=
  { headers : option (gmap string string);
    idempotencyKey : option string;
    zonelessAccount : option string }.
End RequestExtraOptions.

(** The second argument of [processBatch]. *)
Module BatchOptions.
Record t : Type :=
  { limit : option number;
    requestOptions : option RequestExtraOptions.t }.
End BatchOptions.

(** [string | number | undefined], the values of a query record. *)
Inductive QueryValue : Type :=
| QString (s : string)
| QNumber (n : number)
| QUndefined.

Definition qstring (x : option string) : QueryValue :=
  match x with Some s => QString s | None => QUndefined end.

Definition qnumber (x : option number) : QueryValue :=
  match x with Some n => QNumber n | None => QUndefined end.

(** What a call can throw: the error the HTTP client builds from a
    response that is not ok, or any other [Error] (the transport, the
    signing library). *)
Inductive Exn : Type :=
| ZonelessApiError (type message : string) (code param : option string)
                   (statusCode : Z)
| Error (message : string).

(** *** What the resource does, in order: the calls of its methods
    [list], [build] and [broadcast], each of which sends one request
    through the HTTP client, and the local signature. *)
Inductive Step : Type :=
| ListCall (params : ListPayoutsInput.t)
           (options : option RequestExtraOptions.t)
| BuildCall (params : BuildPayoutsBatchInput.t)
            (options : option RequestExtraOptions.t)
| SignCall (unsignedTransaction : string)
| BroadcastCall (params : BroadcastPayoutsBatchInput.t)
                (options : option RequestExtraOptions.t).

(** The payout identifiers a step submits. *)
Definition identifiers (step : Step) : list string :=
  match step with
  | BuildCall params _ => BuildPayoutsBatchInput.payouts params
  | BroadcastCall params _ => BroadcastPayoutsBatchInput.payouts params
  | ListCall _ _ | SignCall _ => []
  end.

(** The HTTP client together with the service behind it: each request
    takes the service from one state to the next and is answered by a
    value or by an exception.  The three fields are
    [client.Get('/payouts', query, options)],
    [client.Post('/payouts/build', params, options)] and
    [client.Post('/payouts/broadcast', params, options)], with answers of
    the types the resource casts them to. *)
Record HttpClient (Server : Type) : Type :=
  { Get_payouts :
      gmap string QueryValue -> option RequestExtraOptions.t ->
      Server -> (Exn + ListResponse.t Payout.t) * Server;
    Post_payouts_build :
      BuildPayoutsBatchInput.t -> option RequestExtraOptions.t ->
      Server -> (Exn + PayoutBatchBuildResponse.t) * Server;
    Post_payouts_broadcast :
      BroadcastPayoutsBatchInput.t -> option RequestExtraOptions.t ->
      Server -> (Exn + PayoutBatchBroadcastResponse.t) * Server }.
Arguments Get_payouts {Server}.
Arguments Post_payouts_build {Server}.
Arguments Post_payouts_broadcast {Server}.

(** The functions of [bs58], [Buffer] and [@solana/web3.js] that
    [SignTransaction] composes. *)
Record Solana : Type :=
  { Keypair : Type;
    Transaction : Type;
    bs58_decode : string -> Exn + list Z;
    Keypair_fromSecretKey : list Z -> Exn + Keypair;
    Buffer_from_base64 : string -> list Z;
    Transaction_from : list Z -> Exn + Transaction;
    partialSign : Transaction -> Keypair -> Exn + Transaction;
    serialize : Transaction -> Exn + list Z;
    toString_base64 : list Z -> string }.

(** *** Computations: state of the world in, outcome and state out. *)

Record World (Server : Type) : Type :=
  { server : Server;
    trace : list Step }.
Arguments server {Server}.
Arguments trace {Server}.

(** [Returned v]: the promise resolves to [v]; [Thrown e]: it rejects
    with [e]; [Running]: the loop has not finished within the number of
    iterations the model was given. *)
Inductive Outcome (A : Type) : Type :=
| Returned (value : A)
| Thrown (e : Exn)
| Running.
Arguments Returned {A}.
Arguments Thrown {A}.
Arguments Running {A}.

Definition M (Server A : Type) : Type :=
  World Server -> Outcome A * World Server.

Definition ret {Server A : Type} (value : A) : M Server A :=
  fun w => (Returned value, w).

Definition bind {Server A B : Type} (c : M Server A) (k : A -> M Server B)
  : M Server B :=
  fun w =>
    match c w with
    | (Returned value, w') => k value w'
    | (Thrown e, w') => (Thrown e, w')
    | (Running, w') => (Running, w')
    end.

Notation "'let*' x ':=' c 'in' k" := (bind c (fun x => k))
  (at level 10, x name, c at level 100, k at level 200).

(** A request: the step is recorded, the service answers. *)
Definition request {Server A : Type} (step : Step)
    (answer : Server -> (Exn + A) * Server) : M Server A :=
  fun w =>
    let '(response, server') := answer (server w) in
    let w' := {| server := server'; trace := trace w ++ [step] |} in
    match response with
    | inr value => (Returned value, w')
    | inl e => (Thrown e, w')
    end.

(** A local step: recorded, with no effect on the service. *)
Definition local {Server A : Type} (step : Step) (result : Exn + A)
  : M Server A :=
  request step (fun s => (result, s)).

(** Sequencing of the library calls that can throw. *)
Definition and_then {A B : Type} (x : Exn + A) (k : A -> Exn + B) : Exn + B :=
  match x with
  | inr value => k value
  | inl e => inl e
  end.

(** *** The resource *)

Section Resource.

Context {Server : Type}.
Variable client : HttpClient Server.
Variable solana : Solana.

Definition set_defined (key : string) (value : option number)
    (query : gmap string QueryValue) : gmap string QueryValue :=
  match value with
  | Some n => <[key := QNumber n]> query
  | None => query
  end.

Definition BuildQuery (params : ListPayoutsInput.t)
  : gmap string QueryValue :=
  let query : gmap string QueryValue :=
    <["limit"%string := qnumber (ListPayoutsInput.limit params)]>
    (<["starting_after"%string := qstring (ListPayoutsInput.starting_after params)]>
    (<["ending_before"%string := qstring (ListPayoutsInput.ending_before params)]>
    (<["destination"%string := qstring (ListPayoutsInput.destination params)]>
    (<["status"%string := qstring (ListPayoutsInput.status params)]> ∅)))) in
  let query :=
    match ListPayoutsInput.arrival_date params with
    | Some range =>
        set_defined "arrival_date[lte]" (Range.lte range)
          (set_defined "arrival_date[lt]" (Range.lt range)
             (set_defined "arrival_date[gte]" (Range.gte range)
                (set_defined "arrival_date[gt]" (Range.gt range) query)))
    | None => query
    end in
  let query :=
    match ListPayoutsInput.created params with
    | Some range =>
        set_defined "created[lte]" (Range.lte range)
          (set_defined "created[lt]" (Range.lt range)
             (set_defined "created[gte]" (Range.gte range)
                (set_defined "created[gt]" (Range.gt range) query)))
    | None => query
    end in
  query.

(** [list]; the name of the datatype is taken. *)
Definition list_ (params : ListPayoutsInput.t)
    (options : option RequestExtraOptions.t)
  : M Server (ListResponse.t Payout.t) :=
  let query := BuildQuery params in
  request (ListCall params options) (Get_payouts client query options).

Definition build (params : BuildPayoutsBatchInput.t)
    (options : option RequestExtraOptions.t)
  : M Server PayoutBatchBuildResponse.t :=
  request (BuildCall params options)
          (Post_payouts_build client params options).

Definition broadcast (params : BroadcastPayoutsBatchInput.t)
    (options : option RequestExtraOptions.t)
  : M Server PayoutBatchBroadcastResponse.t :=
  request (BroadcastCall params options)
          (Post_payouts_broadcast client params options).

(** The body of [SignTransaction]. *)
Definition signed (unsignedTransaction secretKey : string) : Exn + string :=
  and_then (bs58_decode solana secretKey) (fun decoded =>
  and_then (Keypair_fromSecretKey solana decoded) (fun keypair =>
  let txBuffer := Buffer_from_base64 solana unsignedTransaction in
  and_then (Transaction_from solana txBuffer) (fun transaction =>
  and_then (partialSign solana transaction keypair) (fun transaction =>
  and_then (serialize solana transaction) (fun serialized =>
  inr (toString_base64 solana serialized)))))).

Definition SignTransaction (unsignedTransaction secretKey : string)
  : M Server string :=
  local (SignCall unsignedTransaction)
        (signed unsignedTransaction secretKey).

(** The result of the round that finds nothing pending. *)
Definition nothing_pending : ProcessPendingResult.t :=
  {| ProcessPendingResult.signature := "";
     ProcessPendingResult.status := paid;
     ProcessPendingResult.viewer_url := "";
     ProcessPendingResult.payouts := [];
     ProcessPendingResult.total_amount := Num 0;
     ProcessPendingResult.has_more := false;
     ProcessPendingResult.failure_message := None |}.

(** [{ status: 'pending', limit }] *)
Definition pending (limit : number) : ListPayoutsInput.t :=
  {| ListPayoutsInput.limit := Some limit;
     ListPayoutsInput.starting_after := None;
     ListPayoutsInput.ending_before := None;
     ListPayoutsInput.destination := None;
     ListPayoutsInput.status := Some "pending"%string;
     ListPayoutsInput.arrival_date := None;
     ListPayoutsInput.created := None |}.

(** [Math.min(options?.limit ?? 10, 10)] *)
Definition effective_limit (options : option BatchOptions.t) : number :=
  Math_min (nullish (options ≫= BatchOptions.limit) (Num 10)) (Num 10).

Definition processBatch (secretKey : string)
    (options : option BatchOptions.t)
  : M Server ProcessPendingResult.t :=
  let limit := effective_limit options in
  let requestOptions := options ≫= BatchOptions.requestOptions in
  (* Step 1: Get pending payouts *)
  let* pendingPayouts := list_ (pending limit) requestOptions in
  if (length (ListResponse.data pendingPayouts) =? 0)%nat then
    ret nothing_pending
  else
    let payoutIds := map Payout.id (ListResponse.data pendingPayouts) in
    (* Step 2: Build the unsigned transaction *)
    let* buildResult :=
      build {| BuildPayoutsBatchInput.payouts := payoutIds |}
            requestOptions in
    (* Step 3: Sign the transaction locally *)
    let* signedTransaction :=
      SignTransaction
        (PayoutBatchBuildResponse.unsigned_transaction buildResult)
        secretKey in
    (* Step 4: Broadcast the signed transaction *)
    let* broadcastResult :=
      broadcast
        {| BroadcastPayoutsBatchInput.signed_transaction := signedTransaction;
           BroadcastPayoutsBatchInput.payouts := payoutIds |}
        requestOptions in
    ret {| ProcessPendingResult.signature :=
             PayoutBatchBroadcastResponse.signature broadcastResult;
           ProcessPendingResult.status :=
             PayoutBatchBroadcastResponse.status broadcastResult;
           ProcessPendingResult.viewer_url :=
             PayoutBatchBroadcastResponse.viewer_url broadcastResult;
           ProcessPendingResult.payouts :=
             PayoutBatchBroadcastResponse.payouts broadcastResult;
           ProcessPendingResult.total_amount :=
             PayoutBatchBuildResponse.total_amount buildResult;
           ProcessPendingResult.has_more :=
             ListResponse.has_more pendingPayouts;
           ProcessPendingResult.failure_message :=
             PayoutBatchBroadcastResponse.failure_message broadcastResult |}.

(** [this.processBatch(secretKey, { requestOptions: options })], the
    call [processAll] makes at each iteration. *)
Definition round (secretKey : string)
    (options : option RequestExtraOptions.t)
  : M Server ProcessPendingResult.t :=
  processBatch secretKey
    (Some {| BatchOptions.limit := None;
             BatchOptions.requestOptions := options |}).

(** [if (result.payouts.length > 0) results.push(result)] *)
Definition push_if_any (results : list ProcessPendingResult.t)
    (result : ProcessPendingResult.t) : list ProcessPendingResult.t :=
  if (0 <? length (ProcessPendingResult.payouts result))%nat
  then results ++ [result]
  else results.

(** The [while (hasMore)] loop of [processAll], from the values of its
    two variables; [fuel] bounds the number of iterations the model
    follows. *)
Fixpoint processAll_while (fuel : nat) (secretKey : string)
    (options : option RequestExtraOptions.t)
    (results : list ProcessPendingResult.t) (hasMore : bool)
  : M Server (list ProcessPendingResult.t) :=
  if hasMore then
    match fuel with
    | O => fun w => (Running, w)
    | S fuel' =>
        let* result := round secretKey options in
        processAll_while fuel' secretKey options
          (push_if_any results result)
          (ProcessPendingResult.has_more result)
    end
  else ret results.

Definition processAll (fuel : nat) (secretKey : string)
    (options : option RequestExtraOptions.t)
  : M Server (list ProcessPendingResult.t) :=
  processAll_while fuel secretKey options [] true.

(** *** Vocabulary of the properties *)

(** The service never answers a list request with more payouts than
    the limit of the request. *)
Definition respects_limit : Prop :=
  forall query options s page s' (n : Z),
    Get_payouts client query options s = (inr page, s') ->
    query !! "limit"%string = Some (QNumber (Num n)) ->
    Z.of_nat (length (ListResponse.data page)) <= n.

(** [successive secretKey options w results w']: calling [round] again
    and again from the world [w] gives the results [results], in this
    order, and leaves the world [w']. *)
Inductive successive (secretKey : string)
    (options : option RequestExtraOptions.t)
  : World Server -> list ProcessPendingResult.t -> World Server -> Prop :=
| successive_none (w : World Server) :
    successive secretKey options w [] w
| successive_round (w w1 w' : World Server)
    (result : ProcessPendingResult.t)
    (results : list ProcessPendingResult.t) :
    round secretKey options w = (Returned result, w1) ->
    successive secretKey options w1 results w' ->
    successive secretKey options w (result :: results) w'.

(** The round settled at least one payout. *)
Definition settled_any (result : ProcessPendingResult.t) : Prop :=
  (0 < length (ProcessPendingResult.payouts result))%nat.

End Resource.

End Payouts.

(* ================================================================= *)
(** ** A service and a signing library to run the pipeline against *)

Module Sample.

Import Js Payouts.

Definition decimal (n : nat) : string :=
  NilZero.string_of_int (Z.to_int (Z.of_nat n)).

(** The service: the payouts still pending, the largest page it serves,
    the number of broadcasts received, and the broadcast (counted from
    1) that it refuses. *)
Record Service : Type :=
  { queue : list Payout.t;
    page_size : nat;
    broadcasts : nat;
    refused : option nat }.

Definition payout (n : nat) : Payout.t :=
  {| Payout.id := ("po_" ++ decimal n)%string;
     Payout.account := "acct_1";
     Payout.amount := Num (100 * Z.of_nat n);
     Payout.currency := "usdc";
     Payout.destination := "wallet_1";
     Payout.status := Payout.pending |}.

Definition invalid (message : string) : Exn :=
  ZonelessApiError "invalid_request_error" message None None 400.

Definition selected (ids : list string) (s : Service) : list Payout.t :=
  filter (fun p => Payout.id p ∈ ids) (queue s).

Definition total (payouts : list Payout.t) : Z :=
  foldr (fun p acc =>
           match Payout.amount p with Num z => z + acc | NaN => acc end)
        0 payouts.

Definition settled (p : Payout.t) : Payout.t :=
  {| Payout.id := Payout.id p;
     Payout.account := Payout.account p;
     Payout.amount := Payout.amount p;
     Payout.currency := Payout.currency p;
     Payout.destination := Payout.destination p;
     Payout.status := Payout.paid |}.

(** GET /payouts: the first [limit] pending payouts (10 when no limit is
    given), or fewer when the page of the service is smaller; a limit
    that is not a number between 1 and 100 is refused. *)
Definition get_payouts (query : gmap string QueryValue)
    (options : option RequestExtraOptions.t) (s : Service)
  : (Exn + ListResponse.t Payout.t) * Service :=
  let page (limit : nat) :=
    let count := Nat.min limit (page_size s) in
    {| ListResponse.url := "/v1/payouts";
       ListResponse.has_more := (count <? length (queue s))%nat;
       ListResponse.data := take count (queue s) |} in
  match query !! "limit"%string with
  | Some (QNumber (Num n)) =>
      if (1 <=? n) && (n <=? 100) then (inr (page (Z.to_nat n)), s)
      else (inl (invalid "Invalid limit"), s)
  | Some (QNumber NaN) | Some (QString _) => (inl (invalid "Invalid limit"), s)
  | Some QUndefined | None => (inr (page 10%nat), s)
  end.

(** POST /payouts/build *)
Definition post_build (params : BuildPayoutsBatchInput.t)
    (options : option RequestExtraOptions.t) (s : Service)
  : (Exn + PayoutBatchBuildResponse.t) * Service :=
  let ids := BuildPayoutsBatchInput.payouts params in
  let chosen := selected ids s in
  if (length chosen =? 0)%nat then (inl (invalid "No pending payout"), s)
  else
    (inr {| PayoutBatchBuildResponse.unsigned_transaction :=
              String.concat "," ("unsigned" :: ids);
            PayoutBatchBuildResponse.estimated_fee_lamports := Num 5000;
            PayoutBatchBuildResponse.blockhash := "blockhash_1";
            PayoutBatchBuildResponse.last_valid_block_height := Num 1000;
            PayoutBatchBuildResponse.payouts := chosen;
            PayoutBatchBuildResponse.total_amount := Num (total chosen);
            PayoutBatchBuildResponse.recipients_count :=
              Num (Z.of_nat (length chosen)) |}, s).

(** POST /payouts/broadcast: the payouts named leave the queue, unless
    this is the broadcast the service refuses. *)
Definition post_broadcast (params : BroadcastPayoutsBatchInput.t)
    (options : option RequestExtraOptions.t) (s : Service)
  : (Exn + PayoutBatchBroadcastResponse.t) * Service :=
  let ids := BroadcastPayoutsBatchInput.payouts params in
  let count := S (broadcasts s) in
  if bool_decide (refused s = Some count) then
    (inl (ZonelessApiError "api_error" "Blockhash expired" None None 500),
     {| queue := queue s;
        page_size := page_size s;
        broadcasts := count;
        refused := refused s |})
  else
    (inr {| PayoutBatchBroadcastResponse.signature :=
              ("sig:" ++ BroadcastPayoutsBatchInput.signed_transaction params)%string;
            PayoutBatchBroadcastResponse.status := paid;
            PayoutBatchBroadcastResponse.viewer_url := "https://explorer.example/tx";
            PayoutBatchBroadcastResponse.payouts := map settled (selected ids s);
            PayoutBatchBroadcastResponse.failure_message := None |},
     {| queue := filter (fun p => Payout.id p ∉ ids) (queue s);
        page_size := page_size s;
        broadcasts := count;
        refused := refused s |}).

Definition client : HttpClient Service :=
  {| Get_payouts := get_payouts;
     Post_payouts_build := post_build;
     Post_payouts_broadcast := post_broadcast |}.

(** A stand-in for the signing library: texts are their own encoding
    and a signature is the key's name appended to the transaction. *)
Definition solana : Solana :=
  {| Keypair := string;
     Transaction := string;
     bs58_decode := fun secretKey =>
       if truthy secretKey then inr (Sha256.bytes_of_string secretKey)
       else inl (Error "Non-base58 character");
     Keypair_fromSecretKey := fun bytes =>
       inr (String.string_of_list_ascii
              (map (fun b => ascii_of_N (Z.to_N b)) bytes));
     Buffer_from_base64 := Sha256.bytes_of_string;
     Transaction_from := fun bytes =>
       inr (String.string_of_list_ascii
              (map (fun b => ascii_of_N (Z.to_N b)) bytes));
     partialSign := fun transaction keypair =>
       inr (transaction ++ ";signed-by:" ++ keypair)%string;
     serialize := fun transaction =>
       inr (Sha256.bytes_of_string transaction);
     toString_base64 := fun bytes =>
       String.string_of_list_ascii
         (map (fun b => ascii_of_N (Z.to_N b)) bytes) |}.

(** The world in which [count] payouts are pending and nothing has
    happened yet. *)
Definition world (count page_size : nat) (refused : option nat)
  : World Service :=
  {| server := {| queue := map payout (seq 1 count);
                  page_size := page_size;
                  broadcasts := 0;
                  refused := refused |};
     trace := [] |}.

End Sample.

(* ================================================================= *)
(** ** The variables of the loop of [processAll] *)

Module Loop.

Import Js Payouts.

Section Resource.

Context {Server : Type}.
Variable client : HttpClient Server.
Variable solana : Solana.

(** The variables [results] and [hasMore] of [processAll] and the
    world, at the moment the loop is left: at [return results], when
    [processBatch] throws, or when the iterations the model follows are
    used up. *)
Fixpoint processAll_variables (fuel : nat) (secretKey : string)
    (options : option RequestExtraOptions.t)
    (results : list ProcessPendingResult.t) (hasMore : bool)
    (w : World Server)
  : list ProcessPendingResult.t * bool * World Server :=
  if hasMore then
    match fuel with
    | O => (results, hasMore, w)
    | S fuel' =>
        match round client solana secretKey options w with
        | (Returned result, w1) =>
            processAll_variables fuel' secretKey options
              (push_if_any results result)
              (ProcessPendingResult.has_more result) w1
        | (_, w1) => (results, hasMore, w1)
        end
    end
  else (results, hasMore, w).

End Resource.

End Loop.

(* ================================================================= *)
(** ** What the calls of a settlement carry, and two more services *)

Module Calls.
Import Js Payouts.

(** The step passes [options] on as it got them, and lists as every
    round of [processAll] does: the pending payouts, 10 at most. *)
Definition carries (options : option RequestExtraOptions.t) (step : Step)
  : Prop :=
  match step with
  | ListCall params given => params = pending (Num 10) /\ given = options
  | BuildCall _ given | BroadcastCall _ given => given = options
  | SignCall _ => True
  end.

End Calls.

Module Services.
Import Js Payouts.

(** A service that is never done: each page holds the same payout and
    announces more, and each broadcast reports a failed transaction. *)
Definition busy : HttpClient unit :=
  {| Get_payouts := fun query options s =>
       (inr {| ListResponse.url := "/v1/payouts";
               ListResponse.has_more := true;
               ListResponse.data := [Sample.payout 1] |}, s);
     Post_payouts_build := fun params options s =>
       (inr {| PayoutBatchBuildResponse.unsigned_transaction := "unsigned";
               PayoutBatchBuildResponse.estimated_fee_lamports := Num 5000;
               PayoutBatchBuildResponse.blockhash := "blockhash_1";
               PayoutBatchBuildResponse.last_valid_block_height := Num 1000;
               PayoutBatchBuildResponse.payouts := [Sample.payout 1];
               PayoutBatchBuildResponse.total_amount := Num 100;
               PayoutBatchBuildResponse.recipients_count := Num 1 |}, s);
     Post_payouts_broadcast := fun params options s =>
       (inr {| PayoutBatchBroadcastResponse.signature := "sig";
               PayoutBatchBroadcastResponse.status := failed;
               PayoutBatchBroadcastResponse.viewer_url := "https://explorer.example/tx";
               PayoutBatchBroadcastResponse.payouts := [Sample.payout 1];
               PayoutBatchBroadcastResponse.failure_message :=
                 Some "Insufficient funds"%string |}, s) |}.

(** The sample service with a wallet that cannot pay: every build
    request is refused. *)
Definition unfunded : HttpClient Sample.Service :=
  {| Get_payouts := Sample.get_payouts;
     Post_payouts_build := fun params options s =>
       (inl (Sample.invalid "Insufficient funds"), s);
     Post_payouts_broadcast := Sample.post_broadcast |}.

End Services.

(* ================================================================= *)
(** ** HttpClient.ts *)

Module Http.

Import Js.

(** A value of JSON, as [response.json()] gives it and as
    [JSON.stringify] takes it.  The members of an object are its own
    properties in the order of their creation, each key once; numbers
    are those of [Js]. *)
#[local] Unset Elimination Schemes.
Inductive json : Type :=
| JNull
| JBool (b : bool)
| JNumber (n : number)
| JString (s : string)
| JArray (items : list json)
| JObject (members : list (string * json)).
#[local] Set Elimination Schemes.

(** Truthiness of a value that may be [undefined] ([None]). *)
Definition truthy_value (x : option json) : bool :=
  match x with
  | None | Some JNull => false
  | Some (JBool b) => b
  | Some (JNumber (Num z)) => negb (z =? 0)
  | Some (JNumber NaN) => false
  | Some (JString s) => truthy s
  | Some (JArray _) | Some (JObject _) => true
  end.

(** [a || b] *)
Definition or_else (a b : option json) : option json :=
  if truthy_value a then a else b.

(** [a || 'text'] *)
Definition or_text (a : option json) (text : string) : json :=
  match a with
  | Some x => if truthy_value a then x else JString text
  | None => JString text
  end.

(** The own property [key] of an object. *)
Fixpoint own (key : string) (members : list (string * json)) : option json :=
  match members with
  | [] => None
  | (k, x) :: rest => if String.eqb k key then Some x else own key rest
  end.

(** [x.key] for [x] other than [null] and [undefined], and for the keys
    the client reads: ["error"], ["type"], ["message"], ["code"] and
    ["param"].  A boolean, a number, a string and an array have no
    property of these names, nor has [Object.prototype]. *)
Definition member (key : string) (x : json) : option json :=
  match x with
  | JObject members => own key members
  | _ => None
  end.

(** [x?.key] *)
Definition optional_member (key : string) (x : option json) : option json :=
  match x with
  | None | Some JNull => None
  | Some x => member key x
  end.

Record HttpClientConfig : Type :=
  { apiKey : string;
    baseUrl : string;
    timeout : option number }.

(** [Required<HttpClientConfig>] *)
Module Config.
Record t : Type :=
  { apiKey : string;
    baseUrl : string;
    timeout : number }.
End Config.

Inductive Method : Type := GET | POST | DELETE.

#[global] Instance Method_eq_dec : EqDecision Method.
Proof. solve_decision. Defined.

Module RequestOptions.
Record t : Type :=
  { method : Method;
    path : string;
    body : option json;
    query : option (list (string * Payouts.QueryValue));
    headers : option (gmap string string);
    idempotencyKey : option string;
    zonelessAccount : option string }.
End RequestOptions.

Module ZonelessError.
Record t : Type :=
  { type : json;
    message : json;
    code : option json;
    param : option json;
    statusCode : Z }.
End ZonelessError.

(** What [fetch] resolves to, as far as the client reads it;
    [json] is [None] when [response.json()] rejects. *)
Module Response.
Record t : Type :=
  { ok : bool;
    status : Z;
    statusText : string;
    json : option json }.
End Response.

(** What [Request] can throw.  [ZonelessApiError error] is
    [new ZonelessApiError(error)], an object with the fields of
    [error]. *)
Inductive Thrown : Type :=
| ZonelessApiError (error : ZonelessError.t)
| InvalidUrl
| InvalidTimeout
| PropertyOfNull
| Rejected (reason : string).

(** [this.config] as the constructor sets it. *)
Definition new_HttpClient (config : HttpClientConfig) : Config.t :=
  {| Config.apiKey := apiKey config;
     Config.baseUrl := baseUrl config;
     Config.timeout := nullish (timeout config) (Num 30000) |}.

(** [s.replace(/\/$/, '')]: [s] without its last character when this
    is a slash. *)
Fixpoint without_final_slash (s : string) : string :=
  match s with
  | EmptyString => EmptyString
  | String c EmptyString => if Ascii.eqb c "/" then EmptyString else s
  | String c rest => String c (without_final_slash rest)
  end.

(** [String(value)] for a value that is not [undefined]; for a number
    the text of [Js.toString], which is the text the program makes of
    [NaN] and of a safe integer. *)
Definition String_ (value : Payouts.QueryValue) : string :=
  match value with
  | Payouts.QString s => s
  | Payouts.QNumber n => toString n
  | Payouts.QUndefined => "undefined"
  end.

Section Client.

(** The class [URL]: [new URL(text)], [None] when it throws;
    [url.searchParams.set(key, value)]; [url.toString()]. *)
Variable URL : Type.
Variable URL_new : string -> option URL.
Variable searchParams_set : string -> string -> URL -> URL.
Variable URL_toString : URL -> string.
(** [AbortSignal.timeout(delay)], [None] when it refuses the delay. *)
Variable AbortSignal : Type.
Variable AbortSignal_timeout : number -> option AbortSignal.
(** [JSON.stringify] *)
Variable JSON_stringify : json -> string.

Record RequestInit : Type :=
  { method : Method;
    headers : gmap string string;
    signal : AbortSignal;
    body : option string }.

(** [fetch(url, fetchOptions)]: the response, or the reason of the
    rejection. *)
Variable fetch : string -> RequestInit -> string + Response.t.

Variable config : Config.t.

(** The body of the [for] loop of [BuildUrl]. *)
Definition BuildUrl_entry (url : URL) (entry : string * Payouts.QueryValue)
  : URL :=
  let '(key, value) := entry in
  match value with
  | Payouts.QUndefined => url
  | _ => searchParams_set key (String_ value) url
  end.

(** [None]: [new URL] throws. *)
Definition BuildUrl (path : string)
    (query : option (list (string * Payouts.QueryValue))) : option string :=
  let baseUrl := without_final_slash (Config.baseUrl config) in
  match URL_new (baseUrl ++ "/v1" ++ path)%string with
  | None => None
  | Some url =>
      let url :=
        match query with
        | Some entries => foldl BuildUrl_entry url entries
        | None => url
        end in
      Some (URL_toString url)
  end.

(** [{ ...defaults, ...given }]: the properties of [given] are
    written over those of [defaults]. *)
Definition spread (defaults : gmap string string)
    (given : option (gmap string string)) : gmap string string :=
  from_option id ∅ given ∪ defaults.

(** [if (value) headers[key] = value] *)
Definition set_if_given (key : string) (value : option string)
    (headers : gmap string string) : gmap string string :=
  match value with
  | Some text => if truthy text then <[key := text]> headers else headers
  | None => headers
  end.

(** What [Request] does with the response. *)
Definition received (response : Response.t) : Thrown + json :=
  match Response.json response with
  | None =>
      inl (ZonelessApiError
             {| ZonelessError.type := JString "api_error";
                ZonelessError.message :=
                  JString ("Invalid response from API: "
                           ++ toString (Num (Response.status response))
                           ++ " " ++ Response.statusText response);
                ZonelessError.code := None;
                ZonelessError.param := None;
                ZonelessError.statusCode := Response.status response |})
  | Some data =>
      if negb (Response.ok response) then
        match data with
        | JNull => inl PropertyOfNull
        | _ =>
            let errorData := member "error" data in
            inl (ZonelessApiError
                   {| ZonelessError.type :=
                        or_text (optional_member "type" errorData) "api_error";
                      ZonelessError.message :=
                        or_text
                          (or_else (optional_member "message" errorData)
                                   (member "message" data))
                          "An error occurred";
                      ZonelessError.code := optional_member "code" errorData;
                      ZonelessError.param := optional_member "param" errorData;
                      ZonelessError.statusCode := Response.status response |})
        end
      else inr data
  end.

(** [Request]: the calls of [fetch] it made, none or one, and what it
    returns or throws. *)
Definition Request (options : RequestOptions.t)
  : list (string * RequestInit) * (Thrown + json) :=
  match BuildUrl (RequestOptions.path options) (RequestOptions.query options)
  with
  | None => ([], inl InvalidUrl)
  | Some url =>
      let headers :=
        spread (<["Content-Type"%string := "application/json"%string]>
                  (<["x-api-key"%string := Config.apiKey config]> ∅))
               (RequestOptions.headers options) in
      let headers :=
        set_if_given "idempotency-key"
          (RequestOptions.idempotencyKey options) headers in
      let headers :=
        set_if_given "zoneless-account"
          (RequestOptions.zonelessAccount options) headers in
      match AbortSignal_timeout (Config.timeout config) with
      | None => ([], inl InvalidTimeout)
      | Some signal =>
          let fetchOptions :=
            {| method := RequestOptions.method options;
               headers := headers;
               signal := signal;
               body :=
                 if truthy_value (RequestOptions.body options)
                    && bool_decide (RequestOptions.method options <> GET)
                 then JSON_stringify <$> RequestOptions.body options
                 else None |} in
          ([(url, fetchOptions)],
           match fetch url fetchOptions with
           | inr response => received response
           | inl reason => inl (Rejected reason)
           end)
      end
  end.

Definition Get (path : string)
    (query : option (list (string * Payouts.QueryValue)))
    (options : option Payouts.RequestExtraOptions.t) :=
  Request
    {| RequestOptions.method := GET;
       RequestOptions.path := path;
       RequestOptions.body := None;
       RequestOptions.query := query;
       RequestOptions.headers := options ≫= Payouts.RequestExtraOptions.headers;
       RequestOptions.idempotencyKey := None;
       RequestOptions.zonelessAccount :=
         options ≫= Payouts.RequestExtraOptions.zonelessAccount |}.

Definition Post (path : string) (body : option json)
    (options : option Payouts.RequestExtraOptions.t) :=
  Request
    {| RequestOptions.method := POST;
       RequestOptions.path := path;
       RequestOptions.body := body;
       RequestOptions.query := None;
       RequestOptions.headers := options ≫= Payouts.RequestExtraOptions.headers;
       RequestOptions.idempotencyKey :=
         options ≫= Payouts.RequestExtraOptions.idempotencyKey;
       RequestOptions.zonelessAccount :=
         options ≫= Payouts.RequestExtraOptions.zonelessAccount |}.

Definition Delete (path : string)
    (options : option Payouts.RequestExtraOptions.t) :=
  Request
    {| RequestOptions.method := DELETE;
       RequestOptions.path := path;
       RequestOptions.body := None;
       RequestOptions.query := None;
       RequestOptions.headers := options ≫= Payouts.RequestExtraOptions.headers;
       RequestOptions.idempotencyKey := None;
       RequestOptions.zonelessAccount :=
         options ≫= Payouts.RequestExtraOptions.zonelessAccount |}.

End Client.

Arguments method {AbortSignal}.
Arguments headers {AbortSignal}.
Arguments signal {AbortSignal}.
Arguments body {AbortSignal}.

(** The parameters [BuildUrl] writes to the URL: those of the entries
    whose value is not [undefined], as texts. *)
Definition defined (query : option (list (string * Payouts.QueryValue)))
  : list (string * string) :=
  omap (fun entry : string * Payouts.QueryValue =>
          match entry.2 with
          | Payouts.QUndefined => None
          | value => Some (entry.1, String_ value)
          end)
       (from_option id [] query).

(** The numbers of the query are safe integers or [NaN]: those of
    which [String_] is the text the program writes. *)
Definition exact_query (query : option (list (string * Payouts.QueryValue)))
  : Prop :=
  Forall (fun entry : string * Payouts.QueryValue =>
            match entry.2 with
            | Payouts.QNumber n => exact n
            | _ => True
            end)
         (from_option id [] query).

End Http.

(* ================================================================= *)
(** ** index.ts *)

Module Zoneless.

Import Js.

Record ZonelessConfig : Type :=
  { timeout : option number }.

(** The constructor of [Zoneless]: what it throws, or the HTTP client
    that every resource of the instance is given. *)
Definition new_Zoneless (apiKey baseUrl : string)
    (config : option ZonelessConfig) : string + Http.Config.t :=
  let config := nullish config {| timeout := None |} in
  if negb (truthy apiKey) then inl "Zoneless API key is required"%string
  else if negb (truthy baseUrl) then
    inl "Zoneless API base URL is required"%string
  else
    inr (Http.new_HttpClient
           {| Http.apiKey := apiKey;
              Http.baseUrl := baseUrl;
              Http.timeout := timeout config |}).

End Zoneless.

(* ================================================================= *)
(** ** A runtime and an API to send requests to *)

Module Platform.

Import Js Http.

(** A stand-in for the class [URL]: the text as given, which has to
    start with "http", and the search parameters. *)
Definition URL : Type := string * list (string * string).

Definition URL_new (text : string) : option URL :=
  if String.prefix "http" text then Some (text, []) else None.

Fixpoint set (key value : string) (parameters : list (string * string))
  : list (string * string) :=
  match parameters with
  | [] => [(key, value)]
  | (k, v) :: rest =>
      if String.eqb k key then (k, value) :: rest
      else (k, v) :: set key value rest
  end.

Definition searchParams_set (key value : string) (url : URL) : URL :=
  (url.1, set key value url.2).

Definition URL_toString (url : URL) : string :=
  match url.2 with
  | [] => url.1
  | parameters =>
      (url.1 ++ "?"
       ++ String.concat "&" (map (fun p => p.1 ++ "=" ++ p.2) parameters))%string
  end.

(** The signal is the delay it was made with. *)
Definition AbortSignal_timeout (delay : number) : option Z :=
  match delay with
  | Num z => if 0 <=? z then Some z else None
  | NaN => None
  end.

Definition JSON_stringify (x : json) : string :=
  match x with
  | JObject [] => "{}"
  | _ => "[json]"
  end.

(** The API: one payout is unknown, the health check answers without a
    body, and everything else is answered with an empty object. *)
Definition fetch (url : string) (init : RequestInit Z)
  : string + Response.t :=
  if String.eqb url "https://api.example/v1/payouts/po_gone" then
    inr {| Response.ok := false;
           Response.status := 404;
           Response.statusText := "Not Found";
           Response.json :=
             Some (JObject
                     [("error"%string,
                       JObject
                         [("type"%string, JString "invalid_request_error");
                          ("message"%string, JString "No such payout");
                          ("param"%string, JString "id")])]) |}
  else if String.eqb url "https://api.example/v1/health" then
    inr {| Response.ok := true;
           Response.status := 204;
           Response.statusText := "No Content";
           Response.json := None |}
  else
    inr {| Response.ok := true;
           Response.status := 200;
           Response.statusText := "OK";
           Response.json := Some (JObject []) |}.

Definition config : Config.t :=
  {| Config.apiKey := "sk_test";
     Config.baseUrl := "https://api.example/";
     Config.timeout := Num 30000 |}.

End Platform.

(* ================================================================= *)
(** ** Payouts.ts over HttpClient.ts: [list] *)

Module Listing.

Import Js Payouts Http.

(** [if (value !== undefined) query[key] = value], on a query that has
    no property [key] yet: the property is added after the others. *)
Definition bound (key : string) (value : option number)
  : list (string * QueryValue) :=
  match value with
  | Some n => [(key, QNumber n)]
  | None => []
  end.

(** The own properties of the object [BuildQuery] returns, in the
    order of their creation. *)
Definition BuildQuery_entries (params : ListPayoutsInput.t)
  : list (string * QueryValue) :=
  [("limit"%string, qnumber (ListPayoutsInput.limit params));
   ("starting_after"%string, qstring (ListPayoutsInput.starting_after params));
   ("ending_before"%string, qstring (ListPayoutsInput.ending_before params));
   ("destination"%string, qstring (ListPayoutsInput.destination params));
   ("status"%string, qstring (ListPayoutsInput.status params))]
  ++ match ListPayoutsInput.arrival_date params with
     | Some range =>
         bound "arrival_date[gt]" (Range.gt range)
         ++ bound "arrival_date[gte]" (Range.gte range)
         ++ bound "arrival_date[lt]" (Range.lt range)
         ++ bound "arrival_date[lte]" (Range.lte range)
     | None => []
     end
  ++ match ListPayoutsInput.created params with
     | Some range =>
         bound "created[gt]" (Range.gt range)
         ++ bound "created[gte]" (Range.gte range)
         ++ bound "created[lt]" (Range.lt range)
         ++ bound "created[lte]" (Range.lte range)
     | None => []
     end.

(** [{}], the default of the first parameter of [list]. *)
Definition no_filter : ListPayoutsInput.t :=
  {| ListPayoutsInput.limit := None;
     ListPayoutsInput.starting_after := None;
     ListPayoutsInput.ending_before := None;
     ListPayoutsInput.destination := None;
     ListPayoutsInput.status := None;
     ListPayoutsInput.arrival_date := None;
     ListPayoutsInput.created := None |}.

Section Client.

Variable URL : Type.
Variable URL_new : string -> option URL.
Variable searchParams_set : string -> string -> URL -> URL.
Variable URL_toString : URL -> string.
Variable AbortSignal : Type.
Variable AbortSignal_timeout : number -> option AbortSignal.
Variable JSON_stringify : json -> string.
Variable fetch : string -> RequestInit AbortSignal -> string + Response.t.
Variable config : Config.t.

(** [list], with the request it sends. *)
Definition list_ (params : option ListPayoutsInput.t)
    (options : option RequestExtraOptions.t) :=
  let params := nullish params no_filter in
  let query := BuildQuery_entries params in
  Get URL URL_new searchParams_set URL_toString AbortSignal
    AbortSignal_timeout JSON_stringify fetch config
    "/payouts" (Some query) options.

End Client.

(** The limit and the bounds that are given are safe integers or
    [NaN]. *)
Definition exact_bounds (range : option Range.t) : Prop :=
  match range with
  | Some range =>
      from_option exact True (Range.gt range)
      /\ from_option exact True (Range.gte range)
      /\ from_option exact True (Range.lt range)
      /\ from_option exact True (Range.lte range)
  | None => True
  end.

Definition exact_filters (params : ListPayoutsInput.t) : Prop :=
  from_option exact True (ListPayoutsInput.limit params)
  /\ exact_bounds (ListPayoutsInput.arrival_date params)
  /\ exact_bounds (ListPayoutsInput.created params).

(** A search parameter, if its value is given. *)
Definition given (key : string) (value : option string)
  : list (string * string) :=
  match value with
  | Some text => [(key, text)]
  | None => []
  end.

(** The filters of a call of [list] that are given, as the search
    parameters they become. *)
Definition filters (params : ListPayoutsInput.t) : list (string * string) :=
  let arrival_date (side : Range.t -> option number) :=
    toString <$> (ListPayoutsInput.arrival_date params ≫= side) in
  let created (side : Range.t -> option number) :=
    toString <$> (ListPayoutsInput.created params ≫= side) in
  given "limit" (toString <$> ListPayoutsInput.limit params)
  ++ given "starting_after" (ListPayoutsInput.starting_after params)
  ++ given "ending_before" (ListPayoutsInput.ending_before params)
  ++ given "destination" (ListPayoutsInput.destination params)
  ++ given "status" (ListPayoutsInput.status params)
  ++ given "arrival_date[gt]" (arrival_date Range.gt)
  ++ given "arrival_date[gte]" (arrival_date Range.gte)
  ++ given "arrival_date[lt]" (arrival_date Range.lt)
  ++ given "arrival_date[lte]" (arrival_date Range.lte)
  ++ given "created[gt]" (created Range.gt)
  ++ given "created[gte]" (created Range.gte)
  ++ given "created[lt]" (created Range.lt)
  ++ given "created[lte]" (created Range.lte).

End Listing.

(* ================================================================= *)
(** ** The JavaScript fragment on examples, and two facts about it *)

Module JsProperties.

Import Js.

(** A number given in full is in the range of [safe], or of [exact]. *)
Ltac in_range := vm_compute; first [exact I | split; discriminate].

Example split_examples :
  split "," "t=1,v1=a,,v1=b" = ["t=1"; "v1=a"; ""; "v1=b"]%string
  /\ split "," "" = [""%string]
  /\ split "=" "v1=a=b" = ["v1"; "a"; "b"]%string
  /\ split "=" "v1=" = ["v1"; ""]%string
  /\ split "=" "v1" = ["v1"%string].
Proof. repeat split; reflexivity. Qed.

Example parseInt_examples :
  parseInt "1700000000" = Num 1700000000
  /\ parseInt " 12px" = Num 12
  /\ parseInt "-7" = Num (-7)
  /\ parseInt "+007" = Num 7
  /\ parseInt "1e3" = Num 1
  /\ parseInt "soon" = NaN
  /\ parseInt "" = NaN
  /\ parseInt "-" = NaN
  /\ parseInt "0x10" = Num 0
  /\ parseInt "undefined" = NaN.
Proof. repeat split; reflexivity. Qed.

Example toString_examples :
  toString (Num 1700000000) = "1700000000"%string
  /\ toString (Num 0) = "0"%string
  /\ toString (Num (-42)) = "-42"%string
  /\ toString NaN = "NaN"%string.
Proof. repeat split; reflexivity. Qed.

(** *** [split] on a text without the separator *)

Lemma split_free (sep : ascii) (s : string) :
  free_of sep s = true -> split sep s = [s].
Proof.
  induction s as [|c s IH]; simpl; [reflexivity|].
  destruct (Ascii.eqb c sep); simpl; [discriminate|].
  intros Hfree; rewrite (IH Hfree); reflexivity.
Qed.

Lemma split_app (sep : ascii) (s rest : string) :
  free_of sep s = true ->
  split sep (s ++ String sep rest) = s :: split sep rest.
Proof.
  induction s as [|c s IH]; simpl.
  - rewrite Ascii.eqb_refl; reflexivity.
  - destruct (Ascii.eqb c sep); simpl; [discriminate|].
    intros Hfree; rewrite (IH Hfree); reflexivity.
Qed.

(** *** [parseInt] reads back the numeral [toString] writes *)

(** A string that starts with an ASCII character other than white space
    has no leading white space. *)
Lemma TrimStart_plain (a : ascii) (rest : string) :
  code a < 128 -> ws1 a = false -> TrimStart (String a rest) = String a rest.
Proof.
  intros Hascii Hws; cbn [TrimStart]; rewrite Hws.
  destruct rest as [|b [|c rest]]; try reflexivity; unfold ws2, ws3.
  - replace (code a =? 194) with false by lia; reflexivity.
  - replace (code a =? 194) with false by lia.
    replace (code a =? 225) with false by lia.
    replace (code a =? 226) with false by lia.
    replace (code a =? 227) with false by lia.
    replace (code a =? 239) with false by lia.
    reflexivity.
Qed.

Lemma digits_of_uint_acc (d : Decimal.uint) (acc : positive) :
  digits (NilEmpty.string_of_uint d) (Some (Z.pos acc))
  = Some (Z.pos (Pos.of_uint_acc d acc)).
Proof.
  revert acc;
    induction d as [|d IH|d IH|d IH|d IH|d IH|d IH|d IH|d IH|d IH|d IH];
    intros acc; [reflexivity|..];
    cbn [NilEmpty.string_of_uint digits Pos.of_uint_acc];
    cbv [digit code]; simpl; rewrite <- IH; do 2 f_equal; lia.
Qed.

Lemma digits_of_uint (d : Decimal.uint) (acc : option Z) :
  d <> Decimal.Nil -> nullish acc 0 = 0 ->
  digits (NilEmpty.string_of_uint d) acc = Some (Z.of_N (Pos.of_uint d)).
Proof.
  revert acc;
    induction d as [|d IH|d IH|d IH|d IH|d IH|d IH|d IH|d IH|d IH|d IH];
    intros acc Hd Hacc; [contradiction|..];
    cbn [NilEmpty.string_of_uint digits Pos.of_uint];
    cbv [digit code]; simpl; rewrite Hacc; simpl;
    try apply digits_of_uint_acc.
  destruct d; try (apply IH; [discriminate|reflexivity]).
  reflexivity.
Qed.

Lemma parseInt_toString (z : Z) : parseInt (toString (Num z)) = Num z.
Proof.
  destruct z as [|p|p]; [reflexivity|..]; simpl;
    pose proof (DecimalPos.Unsigned.to_uint_nonnil p) as Hnonnil;
    pose proof (DecimalPos.Unsigned.of_to p) as Hp;
    pose proof (digits_of_uint _ None Hnonnil eq_refl) as Hdigits;
    rewrite Hp in Hdigits;
    unfold NilZero.string_of_uint, parseInt.
  - destruct (Pos.to_uint p); [contradiction|..];
      cbn [NilEmpty.string_of_uint] in *;
      (rewrite TrimStart_plain by (vm_compute; reflexivity));
      cbv zeta iota beta; rewrite Hdigits; reflexivity.
  - rewrite TrimStart_plain by (vm_compute; reflexivity).
    replace (match Pos.to_uint p with
             | Decimal.Nil => "0"%string
             | _ => NilEmpty.string_of_uint (Pos.to_uint p)
             end)
      with (NilEmpty.string_of_uint (Pos.to_uint p))
      by (destruct (Pos.to_uint p); [contradiction|reflexivity..]).
    cbv zeta iota beta; rewrite Hdigits; reflexivity.
Qed.

Lemma free_of_uint (d : Decimal.uint) :
  free_of "," (NilEmpty.string_of_uint d) = true
  /\ free_of "=" (NilEmpty.string_of_uint d) = true.
Proof. induction d; simpl; tauto. Qed.

End JsProperties.

(* ================================================================= *)
(** ** HMAC-SHA256 on test vectors, and the form of its digests *)

Module Sha256Properties.

Import Js Sha256 Webhooks.

Example sha256_abc :
  hex (digest (bytes_of_string "abc"))
  = "ba7816bf8f01cfea414140de5dae2223b00361a396177a9cb410ff61f20015ad"%string.
Proof. vm_compute; reflexivity. Qed.

Example hmac_of_signed_payload :
  createHmac_sha256_hex "whsec_test" "1699999700.{}"
  = "8acd93b33a4123715a7c477c4533043d459b1c2a75fbdd622f276f643aaca153"%string.
Proof. vm_compute; reflexivity. Qed.

(** *** A digest is 64 hexadecimal digits *)

Lemma round_length (state : list Z) (kw : Z * Z) :
  length (round state kw) = length state.
Proof.
  unfold round.
  destruct state as [|a [|b [|c [|d [|e [|f [|g [|h [|i rest]]]]]]]]];
    reflexivity.
Qed.

Lemma compress_length (state block : list Z) :
  length (compress state block) = length state.
Proof.
  unfold compress; rewrite length_map, length_combine.
  assert (forall kws s, length (fold_left round kws s) = length s) as Hfold.
  { induction kws as [|kw kws IH]; intros s; simpl; [reflexivity|].
    rewrite IH; apply round_length. }
  rewrite Hfold; lia.
Qed.

Lemma digest_length (msg : list Z) : length (digest msg) = 32%nat.
Proof.
  unfold digest.
  assert (forall blocks s, length (fold_left compress blocks s) = length s)
    as Hfold.
  { induction blocks as [|block blocks IH]; intros s; simpl; [reflexivity|].
    rewrite IH; apply compress_length. }
  specialize (Hfold (pieces 64 (pad msg)) H0).
  destruct (fold_left compress (pieces 64 (pad msg)) H0)
    as [|a [|b [|c [|d [|e [|f [|g [|h [|i rest]]]]]]]]];
    try discriminate Hfold.
  reflexivity.
Qed.

Lemma hex_digit_plain (n : Z) (sep : ascii) :
  0 <= n < 16 -> code sep < 48 \/ 57 < code sep < 97 ->
  Ascii.eqb (hex_digit n) sep = false.
Proof.
  intros Hn Hsep; apply Ascii.eqb_neq; intros <-.
  assert (code (hex_digit n) = if n <? 10 then 48 + n else 87 + n) as Hcode.
  { unfold code, hex_digit.
    rewrite N_ascii_embedding by (destruct (n <? 10); lia).
    destruct (n <? 10); lia. }
  rewrite Hcode in Hsep; destruct (Z.ltb_spec n 10); lia.
Qed.

Lemma hex_free_of (bytes : list Z) (sep : ascii) :
  Forall (fun b => 0 <= b < 256) bytes ->
  code sep < 48 \/ 57 < code sep < 97 ->
  free_of sep (hex bytes) = true.
Proof.
  intros Hbytes Hsep; unfold hex.
  induction Hbytes as [|b bytes Hb _ IH]; [reflexivity|].
  cbn [map concat app String.string_of_list_ascii free_of].
  rewrite !hex_digit_plain, IH; try reflexivity; try assumption.
  - pose proof (Z.mod_pos_bound b 16); lia.
  - split; [apply Z.div_pos; lia|apply Z.div_lt_upper_bound; lia].
Qed.

Lemma be_bytes_range (count : nat) (x : Z) :
  Forall (fun b => 0 <= b < 256) (be_bytes count x).
Proof.
  unfold be_bytes; apply Forall_map, Forall_forall; intros i _; simpl.
  change 255 with (Z.ones 8); rewrite Z.land_ones by lia.
  apply Z.mod_pos_bound; lia.
Qed.

Lemma digest_range (msg : list Z) :
  Forall (fun b => 0 <= b < 256) (digest msg).
Proof.
  unfold digest; apply Forall_concat, Forall_map, Forall_forall.
  intros x _; apply be_bytes_range.
Qed.

Lemma hex_digest_plain (msg : list Z) : plain (hex (digest msg)).
Proof.
  repeat split.
  - pose proof (digest_length msg) as Hlength.
    destruct (digest msg) as [|b bytes]; [discriminate|reflexivity].
  - apply hex_free_of; [apply digest_range|left; reflexivity].
  - apply hex_free_of; [apply digest_range|right; split; reflexivity].
Qed.

Lemma hmac_plain (secret data : string) :
  plain (createHmac_sha256_hex secret data).
Proof. apply hex_digest_plain. Qed.

End Sha256Properties.

(* ================================================================= *)
(** ** Properties of the webhook verifier *)

Module WebhookProperties.

Import Js Webhooks.

(** *** The comparison of signatures is equality of texts *)

Lemma timingSafeEqual_eq (a b : string) :
  String.length a = String.length b ->
  timingSafeEqual a b = true <-> a = b.
Proof.
  revert b; induction a as [|x a IH]; intros [|y b] Hlen;
    simpl in *; try discriminate; [tauto|].
  rewrite andb_true_iff, Ascii.eqb_eq, IH by congruence.
  split; [intros [-> ->]; reflexivity | intros [= -> ->]; tauto].
Qed.

Lemma matches_eq (expectedSignature sig : string) :
  matches expectedSignature sig = true <-> sig = expectedSignature.
Proof.
  unfold matches.
  destruct (Nat.eqb_spec (String.length sig) (String.length expectedSignature))
    as [Hlen|Hlen]; simpl.
  - apply timingSafeEqual_eq, Hlen.
  - split; [discriminate | intros ->; contradiction].
Qed.

Lemma some_matches (expectedSignature : string) (signatures : list string) :
  existsb (matches expectedSignature) signatures
  = bool_decide (expectedSignature ∈ signatures).
Proof.
  induction signatures as [|sig signatures IH]; cbn [existsb].
  - symmetry; apply bool_decide_eq_false_2, not_elem_of_nil.
  - rewrite IH; clear IH.
    destruct (matches expectedSignature sig) eqn:Hm; simpl.
    + apply matches_eq in Hm as ->.
      symmetry; apply bool_decide_eq_true_2; left.
    + assert (sig <> expectedSignature) as Hne.
      { intros H; apply matches_eq in H; congruence. }
      apply bool_decide_ext; rewrite elem_of_cons.
      split; [right; assumption | intros [Heq|Hin]; [congruence | assumption]].
Qed.

(** *** What [ParseHeader] accumulates *)

Lemma values_insert_eq (acc : gmap string field) (key : string) (x : field) :
  values (<[key := x]> acc) key = all x.
Proof. unfold values; rewrite lookup_insert_eq; reflexivity. Qed.

Lemma values_insert_ne (acc : gmap string field) (k key : string) (x : field) :
  k <> key -> values (<[k := x]> acc) key = values acc key.
Proof. intros Hne; unfold values; rewrite lookup_insert_ne by exact Hne; reflexivity. Qed.

Lemma step_values (acc : gmap string field) (item key : string) :
  values (ParseHeader_step acc item) key = values acc key ++ added key item.
Proof.
  unfold ParseHeader_step, added, pair_of.
  destruct (split "=" item) as [|k [|value rest]];
    try (rewrite app_nil_r; reflexivity).
  destruct (truthy k && truthy value); [|rewrite app_nil_r; reflexivity].
  destruct (decide (k = key)) as [->|Hne].
  - destruct (acc !! key) as [[previous|previous]|] eqn:Hacc;
      rewrite values_insert_eq; unfold values; rewrite Hacc; reflexivity.
  - rewrite app_nil_r.
    destruct (acc !! k) as [[previous|previous]|];
      apply values_insert_ne, Hne.
Qed.

Lemma added_values_of (key : string) (items : list string) :
  concat (map (added key) items)
  = map snd (filter (fun kv => fst kv = key) (omap pair_of items)).
Proof.
  induction items as [|item items IH]; [reflexivity|].
  simpl; rewrite IH; unfold added.
  destruct (pair_of item) as [[k value]|]; [|reflexivity].
  rewrite filter_cons; simpl.
  destruct (decide (k = key)); reflexivity.
Qed.

Lemma foldl_values (items : list string) (acc : gmap string field) (key : string) :
  values (foldl ParseHeader_step acc items) key
  = values acc key ++ concat (map (added key) items).
Proof.
  revert acc; induction items as [|item items IH]; intros acc; simpl.
  - rewrite app_nil_r; reflexivity.
  - rewrite IH, step_values, <- app_assoc; reflexivity.
Qed.

Lemma ParseHeader_values (header key : string) :
  values (ParseHeader header) key = values_of key header.
Proof.
  unfold ParseHeader, values_of, pairs.
  rewrite foldl_values, added_values_of.
  unfold values; rewrite lookup_empty; reflexivity.
Qed.

Lemma step_arrays_inhabited (acc : gmap string field) (item : string) :
  arrays_inhabited acc -> arrays_inhabited (ParseHeader_step acc item).
Proof.
  intros Hacc; unfold ParseHeader_step.
  destruct (split "=" item) as [|k [|value rest]]; try exact Hacc.
  destruct (truthy k && truthy value); [|exact Hacc].
  intros key.
  destruct (decide (k = key)) as [->|Hne].
  - destruct (acc !! key) as [[previous|previous]|];
      rewrite lookup_insert_eq; try discriminate.
    destruct previous; discriminate.
  - destruct (acc !! k) as [[previous|previous]|];
      rewrite lookup_insert_ne by exact Hne; apply Hacc.
Qed.

Lemma ParseHeader_arrays_inhabited (header : string) :
  arrays_inhabited (ParseHeader header).
Proof.
  unfold ParseHeader.
  assert (arrays_inhabited (∅ : gmap string field)) as Hempty.
  { intros key; rewrite lookup_empty; discriminate. }
  revert Hempty; generalize (∅ : gmap string field).
  induction (split "," header) as [|item items IH]; intros acc Hacc; simpl.
  - exact Hacc.
  - apply IH, step_arrays_inhabited, Hacc.
Qed.

(** A property of the parsed header, read through its values. *)
Lemma ParseHeader_lookup (header key : string) :
  match ParseHeader header !! key with
  | Some x =>
      exists value rest,
        values_of key header = value :: rest
        /\ first x = value /\ all x = value :: rest
  | None => values_of key header = []
  end.
Proof.
  pose proof (ParseHeader_values header key) as Hvalues.
  pose proof (ParseHeader_arrays_inhabited header key) as Hwf.
  unfold values in Hvalues.
  destruct (ParseHeader header !! key) as [[value|[|value rest]]|];
    simpl in *.
  - exists value, []; auto.
  - congruence.
  - exists value, rest; auto.
  - auto.
Qed.

(** *** A header written from a numeral and a digest *)

Lemma plain_toString (z : Z) : plain (toString (Num z)).
Proof.
  destruct z as [|p|p]; [repeat split|..]; simpl;
    pose proof (DecimalPos.Unsigned.to_uint_nonnil p) as Hnonnil;
    pose proof (JsProperties.free_of_uint (Pos.to_uint p)) as [Hcomma Heq];
    (destruct (Pos.to_uint p); [contradiction|..]); repeat split; assumption.
Qed.

Lemma pair_of_plain (key value : string) :
  truthy key = true -> free_of "=" key = true -> plain value ->
  pair_of (key ++ String "=" value) = Some (key, value).
Proof.
  intros Hkey Hfree (Hvalue & _ & Hvalue_eq); unfold pair_of.
  rewrite (JsProperties.split_app _ _ _ Hfree).
  rewrite (JsProperties.split_free _ _ Hvalue_eq), Hkey, Hvalue.
  reflexivity.
Qed.

Lemma values_of_canonical (ts sig : string) :
  plain ts -> plain sig ->
  values_of "t" ("t=" ++ ts ++ ",v1=" ++ sig) = [ts]
  /\ values_of "v1" ("t=" ++ ts ++ ",v1=" ++ sig) = [sig].
Proof.
  intros Hts Hsig.
  assert (pairs ("t=" ++ ts ++ ",v1=" ++ sig) = [("t", ts); ("v1", sig)]%string)
    as Hpairs.
  { unfold pairs.
    change ("t=" ++ ts ++ ",v1=" ++ sig)%string
      with (("t=" ++ ts) ++ String "," ("v1=" ++ sig))%string.
    rewrite JsProperties.split_app by (apply Hts).
    rewrite JsProperties.split_free by (apply Hsig).
    pose proof (pair_of_plain "t" ts eq_refl eq_refl Hts) as Ht.
    pose proof (pair_of_plain "v1" sig eq_refl eq_refl Hsig) as Hv1.
    cbn [omap list_omap].
    change ("t=" ++ ts)%string with ("t" ++ String "=" ts)%string.
    change ("v1=" ++ sig)%string with ("v1" ++ String "=" sig)%string.
    rewrite Ht, Hv1; reflexivity. }
  unfold values_of; rewrite Hpairs; split; reflexivity.
Qed.

(** *** [Verify], case by case *)

Lemma Verify_cases (createHmac_sha256_hex : string -> string -> string)
    (Date_now : Z) (payload header secret : string) (tolerance : number) :
  Verify createHmac_sha256_hex Date_now payload header secret tolerance =
  match values_of "t" header, values_of "v1" header with
  | ts :: _, _ :: _ =>
      if gt tolerance (Num 0)
         && gt (sub (Num (Date_now / 1000)) (parseInt ts)) tolerance
      then inl TimestampToleranceError
      else if bool_decide
                (createHmac_sha256_hex secret
                   (signedPayload (parseInt ts) payload)
                 ∈ values_of "v1" header)
           then inr tt
           else inl SignatureMismatchError
  | _, _ => inl MissingSignatureError
  end.
Proof.
  unfold Verify.
  pose proof (ParseHeader_lookup header "t") as Ht.
  pose proof (ParseHeader_lookup header "v1") as Hv1.
  destruct (ParseHeader header !! "t"%string) as [t|].
  - destruct Ht as (ts & others & -> & -> & _).
    destruct (ParseHeader header !! "v1"%string) as [v1|].
    + destruct Hv1 as (sig & sigs & -> & _ & ->).
      rewrite some_matches.
      destruct (gt tolerance (Num 0) && _); [reflexivity|].
      destruct (bool_decide _); reflexivity.
    + rewrite Hv1; reflexivity.
  - rewrite Ht; reflexivity.
Qed.

(** The header carries a timestamp [ts] and at least one candidate. *)
Lemma Verify_extracted (createHmac_sha256_hex : string -> string -> string)
    (Date_now : Z) (payload header secret ts : string) (tolerance : number) :
  head (values_of "t" header) = Some ts ->
  values_of "v1" header <> [] ->
  Verify createHmac_sha256_hex Date_now payload header secret tolerance =
  if gt tolerance (Num 0)
     && gt (sub (Num (Date_now / 1000)) (parseInt ts)) tolerance
  then inl TimestampToleranceError
  else if bool_decide
            (createHmac_sha256_hex secret
               (signedPayload (parseInt ts) payload)
             ∈ values_of "v1" header)
       then inr tt
       else inl SignatureMismatchError.
Proof.
  intros Ht Hv1; rewrite Verify_cases.
  destruct (values_of "t" header) as [|ts' others]; [discriminate|].
  injection Ht as ->.
  destruct (values_of "v1" header); [contradiction|reflexivity].
Qed.

(** No candidate at all: the header is refused before anything is
    compared. *)
Lemma Verify_no_candidate (createHmac_sha256_hex : string -> string -> string)
    (Date_now : Z) (payload header secret : string) (tolerance : number) :
  values_of "v1" header = [] ->
  Verify createHmac_sha256_hex Date_now payload header secret tolerance
  = inl MissingSignatureError.
Proof.
  intros Hv1; rewrite Verify_cases, Hv1.
  destruct (values_of "t" header); reflexivity.
Qed.

Section Verifier.

Variable createHmac_sha256_hex : string -> string -> string.
Variable Date_now : Z.

Abbreviation Verify := (Webhooks.Verify createHmac_sha256_hex Date_now).
Abbreviation expected secret timestamp payload :=
  (createHmac_sha256_hex secret (signedPayload timestamp payload)).

(** C7. For a tolerance above 0 and a header whose timestamp is the
    integer [now - tolerance] and that carries a matching [v1]
    signature, verification succeeds; when the timestamp is
    [now - tolerance - 1] it fails with the tolerance error, whatever
    the candidates of the header are; and with the tolerance 0 the
    outcome is that of the comparison of signatures alone, for any
    timestamp and any clock.  The timestamp, the tolerance and the time
    of the clock are safe integers (the timestamp may also be one that
    reads as [NaN]). *)
Theorem tolerance_boundary (payload header secret ts : string)
    (tolerance : Z) :
  head (values_of "t" header) = Some ts ->
  exact (parseInt ts) ->
  (safe Date_now ->
   safe tolerance ->
   0 < tolerance ->
   parseInt ts = Num (Date_now / 1000 - tolerance) ->
   expected secret (Num (Date_now / 1000 - tolerance)) payload
     ∈ values_of "v1" header ->
   Verify payload header secret (Num tolerance) = inr tt)
  /\ (safe Date_now ->
      safe tolerance ->
      0 < tolerance ->
      parseInt ts = Num (Date_now / 1000 - tolerance - 1) ->
      values_of "v1" header <> [] ->
      Verify payload header secret (Num tolerance)
      = inl TimestampToleranceError)
  /\ (forall clock : Z,
        Webhooks.Verify createHmac_sha256_hex clock
          payload header secret (Num 0)
        = if bool_decide (values_of "v1" header = [])
          then inl MissingSignatureError
          else if bool_decide (expected secret (parseInt ts) payload
                               ∈ values_of "v1" header)
               then inr tt
               else inl SignatureMismatchError).
Proof.
  intros Ht _; split; [|split].
  - intros _ _ Htol Hts Hin.
    rewrite (Verify_extracted _ _ _ _ _ ts) by
      (try assumption; intros Hnil; rewrite Hnil in Hin;
       exact (not_elem_of_nil _ Hin)).
    rewrite Hts; simpl.
    replace (Date_now / 1000 - (Date_now / 1000 - tolerance) >? tolerance)
      with false by lia.
    rewrite andb_false_r, bool_decide_eq_true_2 by exact Hin.
    reflexivity.
  - intros _ _ Htol Hts Hv1.
    rewrite (Verify_extracted _ _ _ _ _ ts) by assumption.
    rewrite Hts; simpl.
    replace (tolerance >? 0) with true by lia.
    replace (Date_now / 1000 - (Date_now / 1000 - tolerance - 1) >? tolerance)
      with true by lia.
    reflexivity.
  - intros clock.
    destruct (decide (values_of "v1" header = [])) as [Hnil|Hv1].
    + rewrite bool_decide_eq_true_2 by exact Hnil.
      apply Verify_no_candidate, Hnil.
    + rewrite bool_decide_eq_false_2 by exact Hv1.
      rewrite (Verify_extracted _ _ _ _ _ ts) by assumption.
      reflexivity.
Qed.

(** The header written from the timestamp [now - tolerance] and from
    the digest of the text signed at that time is accepted, whatever the
    payload and the secret are, provided the digest is written without
    [","] and ["="], as a hexadecimal digest is; the tolerance, the
    time of the clock and the timestamp are safe integers. *)
Corollary canonical_header_verifies (payload secret : string)
    (tolerance : Z) :
  safe Date_now ->
  safe tolerance ->
  safe (Date_now / 1000 - tolerance) ->
  0 < tolerance ->
  let t := toString (Num (Date_now / 1000 - tolerance)) in
  let sig := createHmac_sha256_hex secret (t ++ "." ++ payload)%string in
  plain sig ->
  Verify payload ("t=" ++ t ++ ",v1=" ++ sig) secret (Num tolerance) = inr tt.
Proof.
  intros _ _ _ Htol t sig Hsig.
  destruct (values_of_canonical t sig (plain_toString _) Hsig) as [Ht Hv1].
  rewrite (Verify_extracted _ _ _ _ _ t), Hv1 by (rewrite ?Ht, ?Hv1; done).
  subst sig t.
  rewrite (JsProperties.parseInt_toString (Date_now / 1000 - tolerance)); simpl.
  replace (Date_now / 1000 - (Date_now / 1000 - tolerance) >? tolerance)
    with false by lia.
  rewrite andb_false_r, bool_decide_eq_true_2; [reflexivity|].
  apply list_elem_of_singleton; reflexivity.
Qed.

(** C8. Parsing keeps every [v1] value of the header, first seen
    first.  Once the timestamp is read and is not stale, verification
    succeeds exactly when one of these candidates is the hexadecimal
    HMAC-SHA256 of the timestamp, a dot and the payload under the
    secret: two candidates of which only the second one matches are
    accepted, and the mismatch error is thrown only when no candidate
    matches.  The timestamp and the tolerance are safe integers or
    [NaN], and the time of the clock is a safe integer. *)
Theorem any_candidate_verifies (payload header secret ts : string)
    (tolerance : number) :
  values (ParseHeader header) "v1" = values_of "v1" header
  /\ (head (values_of "t" header) = Some ts ->
      exact (parseInt ts) ->
      exact tolerance ->
      safe Date_now ->
      gt tolerance (Num 0)
      && gt (sub (Num (Date_now / 1000)) (parseInt ts)) tolerance = false ->
      (Verify payload header secret tolerance = inr tt
       <-> expected secret (parseInt ts) payload ∈ values_of "v1" header)
      /\ (forall one other : string,
            values_of "v1" header = [one; other] ->
            one <> expected secret (parseInt ts) payload ->
            other = expected secret (parseInt ts) payload ->
            Verify payload header secret tolerance = inr tt)
      /\ (Verify payload header secret tolerance = inl SignatureMismatchError
          <-> values_of "v1" header <> []
              /\ expected secret (parseInt ts) payload
                 ∉ values_of "v1" header)).
Proof.
  split; [apply ParseHeader_values|].
  intros Ht _ _ _ Hfresh.
  assert (Verify payload header secret tolerance = inr tt
          <-> expected secret (parseInt ts) payload ∈ values_of "v1" header)
    as Hok.
  { destruct (decide (values_of "v1" header = [])) as [Hnil|Hv1].
    - rewrite Verify_no_candidate, Hnil by exact Hnil.
      split; [discriminate|intros Hin; destruct (not_elem_of_nil _ Hin)].
    - rewrite (Verify_extracted _ _ _ _ _ ts), Hfresh by assumption.
      case_bool_decide; split; try discriminate; tauto. }
  split; [exact Hok|split].
  - intros one other Hv1 _ ->.
    apply Hok; rewrite Hv1; right; left.
  - destruct (decide (values_of "v1" header = [])) as [Hnil|Hv1].
    + rewrite Verify_no_candidate by exact Hnil.
      split; [discriminate|tauto].
    + rewrite (Verify_extracted _ _ _ _ _ ts), Hfresh by assumption.
      case_bool_decide; split; try discriminate; tauto.
Qed.

(** C10. When the timestamp of the header is not a decimal integer and
    the tolerance is above 0, the tolerance error is never thrown: the
    text that is signed is "NaN." followed by the payload, the header
    is accepted exactly when a candidate is the HMAC of that text, and
    a header with candidates none of which is that HMAC is refused
    with the mismatch error. *)
Theorem unparseable_timestamp (payload header secret ts : string)
    (tolerance : Z) :
  head (values_of "t" header) = Some ts ->
  parseInt ts = NaN ->
  0 < tolerance ->
  Verify payload header secret (Num tolerance) <> inl TimestampToleranceError
  /\ signedPayload (parseInt ts) payload = ("NaN." ++ payload)%string
  /\ (Verify payload header secret (Num tolerance) = inr tt
      <-> createHmac_sha256_hex secret ("NaN." ++ payload)%string
          ∈ values_of "v1" header)
  /\ (values_of "v1" header <> [] ->
      createHmac_sha256_hex secret ("NaN." ++ payload)%string
        ∉ values_of "v1" header ->
      Verify payload header secret (Num tolerance)
      = inl SignatureMismatchError).
Proof.
  intros Ht Hnan Htol.
  assert (signedPayload (parseInt ts) payload = ("NaN." ++ payload)%string)
    as Hsigned by (rewrite Hnan; reflexivity).
  destruct (decide (values_of "v1" header = [])) as [Hnil|Hv1].
  - rewrite Verify_no_candidate, Hnil by exact Hnil.
    repeat split; try discriminate; try assumption.
    + intros Hin; destruct (not_elem_of_nil _ Hin).
    + contradiction.
  - rewrite (Verify_extracted _ _ _ _ _ ts) by assumption.
    rewrite Hsigned, Hnan; simpl; rewrite andb_false_r.
    case_bool_decide; repeat split; try discriminate; tauto.
Qed.

(** [constructEvent] hands out an event only for a payload that passed
    [Verify], and that event is the payload parsed. *)
Lemma constructEvent_verified (Event : Type)
    (JSON_parse : string -> option Event) (payload header secret : string)
    (tolerance : option number) (event : Event) :
  constructEvent createHmac_sha256_hex Date_now Event JSON_parse
    payload header secret tolerance = inr event ->
  Verify payload header secret (nullish tolerance DEFAULT_TOLERANCE) = inr tt
  /\ JSON_parse payload = Some event.
Proof.
  unfold constructEvent.
  destruct (Webhooks.Verify _ _ _ _ _ _) as [e|[]]; [discriminate|].
  destruct (JSON_parse payload); [|discriminate].
  intros [= ->]; split; reflexivity.
Qed.

End Verifier.

(** *** The three theorems on headers signed with HMAC-SHA256 *)

(** With the HMAC-SHA256 of Node.js, the header written at the edge of
    the tolerance is accepted for every payload and secret, and for
    every clock and tolerance above 0 that are safe integers and give a
    timestamp that is one. *)
Corollary signed_header_verifies (Date_now : Z) (payload secret : string)
    (tolerance : Z) :
  safe Date_now ->
  safe tolerance ->
  safe (Date_now / 1000 - tolerance) ->
  0 < tolerance ->
  let t := toString (Num (Date_now / 1000 - tolerance)) in
  Verify Sha256.createHmac_sha256_hex Date_now payload
    ("t=" ++ t ++ ",v1="
     ++ Sha256.createHmac_sha256_hex secret (t ++ "." ++ payload))
    secret (Num tolerance) = inr tt.
Proof.
  intros Hclock Hsafe Ht Htol; apply canonical_header_verifies;
    [exact Hclock|exact Hsafe|exact Ht|exact Htol
    |apply Sha256Properties.hmac_plain].
Qed.

Example ParseHeader_examples :
  ParseHeader "t=1,v1=a,v1=b,v1=c" !! "v1"%string
  = Some (Many ["a"; "b"; "c"]%string)
  /\ ParseHeader "t=1,v1=a" !! "v1"%string = Some (One "a")
  /\ ParseHeader "t=1,v1=,v1" !! "v1"%string = None
  /\ ParseHeader "t=1,v1=a=b, v1=c" !! "v1"%string = Some (One "a")
  /\ ParseHeader "t=1,t=2,v1=a" !! "t"%string = Some (Many ["1"; "2"]%string).
Proof. repeat split; vm_compute; reflexivity. Qed.


(** The clock reads 1700000000.123 s and the tolerance is 300 s: a header
    signed at 1699999700 is accepted, one marked 1699999699 is refused
    as too old, and with the tolerance 0 the latter is judged on its
    signature alone. *)
Lemma tolerance_boundary_witness :
  Verify Sha256.createHmac_sha256_hex 1700000000123 "{}"
    "t=1699999700,v1=8acd93b33a4123715a7c477c4533043d459b1c2a75fbdd622f276f643aaca153"
    "whsec_test" (Num 300) = inr tt
  /\ Verify Sha256.createHmac_sha256_hex 1700000000123 "{}"
       "t=1699999699,v1=42baf62df1148cc8dab1b4ac1ef2abf43713fc8fac7f20eb4470449733e7122c"
       "whsec_test" (Num 300) = inl TimestampToleranceError
  /\ Verify Sha256.createHmac_sha256_hex 1700000000123 "{}"
       "t=1699999699,v1=42baf62df1148cc8dab1b4ac1ef2abf43713fc8fac7f20eb4470449733e7122c"
       "whsec_test" (Num 0) = inr tt.
Proof.
  pose proof
    (tolerance_boundary Sha256.createHmac_sha256_hex 1700000000123 "{}"
       "t=1699999700,v1=8acd93b33a4123715a7c477c4533043d459b1c2a75fbdd622f276f643aaca153"
       "whsec_test" "1699999700" 300 eq_refl) as Hfresh.
  pose proof
    (tolerance_boundary Sha256.createHmac_sha256_hex 1700000000123 "{}"
       "t=1699999699,v1=42baf62df1148cc8dab1b4ac1ef2abf43713fc8fac7f20eb4470449733e7122c"
       "whsec_test" "1699999699" 300 eq_refl) as Hstale.
  destruct Hfresh as [Haccepted _]; [JsProperties.in_range|].
  destruct Hstale as (_ & Hrefused & Hdisabled); [JsProperties.in_range|].
  split; [|split].
  - apply Haccepted;
      [JsProperties.in_range | JsProperties.in_range
      | reflexivity | reflexivity |].
    apply (bool_decide_unpack _); vm_compute; exact I.
  - apply Hrefused;
      [JsProperties.in_range | JsProperties.in_range
      | reflexivity | reflexivity | discriminate].
  - rewrite Hdisabled; vm_compute; reflexivity.
Defined.

(** A header sent while the secret is rotated: the first candidate is
    signed with the old secret, the second with the new one.  The
    holder of the new secret accepts it; under a third secret no
    candidate matches. *)
Lemma any_candidate_verifies_witness :
  values
    (ParseHeader
       "t=1699999900,v1=c1757c0291208da57b2c672b303d89aa0495afa1a8e54d56dffa70e5dbfeb212,v1=e1bfdd64e6d9a223ebb1fbdaa5e3e723b3e7be9c27cd08f766a0dae5c486b8c4")
    "v1"
  = ["c1757c0291208da57b2c672b303d89aa0495afa1a8e54d56dffa70e5dbfeb212";
     "e1bfdd64e6d9a223ebb1fbdaa5e3e723b3e7be9c27cd08f766a0dae5c486b8c4"]%string
  /\ Verify Sha256.createHmac_sha256_hex 1700000000123 "{}"
       "t=1699999900,v1=c1757c0291208da57b2c672b303d89aa0495afa1a8e54d56dffa70e5dbfeb212,v1=e1bfdd64e6d9a223ebb1fbdaa5e3e723b3e7be9c27cd08f766a0dae5c486b8c4"
       "whsec_new" (Num 300) = inr tt
  /\ Verify Sha256.createHmac_sha256_hex 1700000000123 "{}"
       "t=1699999900,v1=c1757c0291208da57b2c672b303d89aa0495afa1a8e54d56dffa70e5dbfeb212,v1=e1bfdd64e6d9a223ebb1fbdaa5e3e723b3e7be9c27cd08f766a0dae5c486b8c4"
       "whsec_other" (Num 300) = inl SignatureMismatchError.
Proof.
  pose proof
    (any_candidate_verifies Sha256.createHmac_sha256_hex 1700000000123 "{}"
       "t=1699999900,v1=c1757c0291208da57b2c672b303d89aa0495afa1a8e54d56dffa70e5dbfeb212,v1=e1bfdd64e6d9a223ebb1fbdaa5e3e723b3e7be9c27cd08f766a0dae5c486b8c4"
       "whsec_new" "1699999900" (Num 300)) as [Hparsed Hnew].
  pose proof
    (any_candidate_verifies Sha256.createHmac_sha256_hex 1700000000123 "{}"
       "t=1699999900,v1=c1757c0291208da57b2c672b303d89aa0495afa1a8e54d56dffa70e5dbfeb212,v1=e1bfdd64e6d9a223ebb1fbdaa5e3e723b3e7be9c27cd08f766a0dae5c486b8c4"
       "whsec_other" "1699999900" (Num 300)) as [_ Hother].
  destruct Hnew as (_ & Hsecond & _);
    [reflexivity | JsProperties.in_range | JsProperties.in_range
    | JsProperties.in_range | reflexivity |].
  destruct Hother as (_ & _ & Hmismatch);
    [reflexivity | JsProperties.in_range | JsProperties.in_range
    | JsProperties.in_range | reflexivity |].
  split; [|split].
  - rewrite Hparsed; reflexivity.
  - eapply Hsecond; [reflexivity | vm_compute; discriminate | vm_compute; reflexivity].
  - apply Hmismatch; split; [discriminate|].
    apply (bool_decide_unpack _); vm_compute; exact I.
Defined.

(** A header whose timestamp is the word "soon": it is never too old;
    it is accepted when its candidate is the HMAC of "NaN.{}" and
    refused for its signature otherwise. *)
Lemma unparseable_timestamp_witness :
  Verify Sha256.createHmac_sha256_hex 1700000000123 "{}"
    "t=soon,v1=6db2f065251a2293e8a06a2fae9dc915d2e2e5c2fd5054f2083b52e2dba94503"
    "whsec_test" (Num 300) = inr tt
  /\ Verify Sha256.createHmac_sha256_hex 1700000000123 "{}"
       "t=soon,v1=8acd93b33a4123715a7c477c4533043d459b1c2a75fbdd622f276f643aaca153"
       "whsec_test" (Num 300) = inl SignatureMismatchError.
Proof.
  pose proof
    (unparseable_timestamp Sha256.createHmac_sha256_hex 1700000000123 "{}"
       "t=soon,v1=6db2f065251a2293e8a06a2fae9dc915d2e2e5c2fd5054f2083b52e2dba94503"
       "whsec_test" "soon" 300 eq_refl eq_refl eq_refl)
    as (_ & _ & Haccepted & _).
  pose proof
    (unparseable_timestamp Sha256.createHmac_sha256_hex 1700000000123 "{}"
       "t=soon,v1=8acd93b33a4123715a7c477c4533043d459b1c2a75fbdd622f276f643aaca153"
       "whsec_test" "soon" 300 eq_refl eq_refl eq_refl)
    as (_ & _ & _ & Hrefused).
  split.
  - apply Haccepted, (bool_decide_unpack _); vm_compute; exact I.
  - apply Hrefused; [discriminate|].
    apply (bool_decide_unpack _); vm_compute; exact I.
Defined.

End WebhookProperties.

(* ================================================================= *)
(** ** Properties of the settlement pipeline *)

Module PayoutProperties.

Import Js Payouts.

Section Resource.

Context {Server : Type}.
Variable client : HttpClient Server.
Variable solana : Solana.

Abbreviation processBatch := (Payouts.processBatch client solana).
Abbreviation processAll := (Payouts.processAll client solana).
Abbreviation list_ := (Payouts.list_ client).
Abbreviation build := (Payouts.build client).
Abbreviation broadcast := (Payouts.broadcast client).
Abbreviation SignTransaction := (Payouts.SignTransaction (Server := Server) solana).
Abbreviation round := (Payouts.round client solana).
Abbreviation successive := (Payouts.successive client solana).

(** *** Sequencing *)

Lemma bind_Returned {A B : Type} (c : M Server A) (k : A -> M Server B)
    (w w1 : World Server) (value : A) :
  c w = (Returned value, w1) -> bind c k w = k value w1.
Proof. intros H; unfold bind; rewrite H; reflexivity. Qed.

Lemma bind_Thrown {A B : Type} (c : M Server A) (k : A -> M Server B)
    (w w1 : World Server) (e : Exn) :
  c w = (Thrown e, w1) -> bind c k w = (Thrown e, w1).
Proof. intros H; unfold bind; rewrite H; reflexivity. Qed.

(** A request adds its step to the trace, returns or throws, and never
    leaves the caller waiting. *)
Lemma request_inv {A : Type} (step : Step)
    (answer : Server -> (Exn + A) * Server) (w w' : World Server)
    (out : Outcome A) :
  request step answer w = (out, w') ->
  trace w' = trace w ++ [step] /\ out <> Running.
Proof.
  unfold request; destruct (answer (server w)) as [[e|value] s'];
    intros [= <- <-]; split; simpl; congruence.
Qed.

(** *** [processBatch], step by step *)

Lemma processBatch_list_failed (secretKey : string)
    (options : option BatchOptions.t) (w w1 : World Server) (e : Exn) :
  list_ (pending (effective_limit options))
        (options ≫= BatchOptions.requestOptions) w = (Thrown e, w1) ->
  processBatch secretKey options w = (Thrown e, w1).
Proof. intros H; unfold Payouts.processBatch; apply bind_Thrown, H. Qed.

Lemma processBatch_listed (secretKey : string)
    (options : option BatchOptions.t) (w w1 : World Server)
    (page : ListResponse.t Payout.t) :
  list_ (pending (effective_limit options))
        (options ≫= BatchOptions.requestOptions) w = (Returned page, w1) ->
  ListResponse.data page <> [] ->
  let requestOptions := options ≫= BatchOptions.requestOptions in
  let payoutIds := map Payout.id (ListResponse.data page) in
  processBatch secretKey options w =
  match build {| BuildPayoutsBatchInput.payouts := payoutIds |}
              requestOptions w1 with
  | (Returned buildResult, w2) =>
      match SignTransaction
              (PayoutBatchBuildResponse.unsigned_transaction buildResult)
              secretKey w2 with
      | (Returned signedTransaction, w3) =>
          match broadcast
                  {| BroadcastPayoutsBatchInput.signed_transaction :=
                       signedTransaction;
                     BroadcastPayoutsBatchInput.payouts := payoutIds |}
                  requestOptions w3 with
          | (Returned broadcastResult, w4) =>
              (Returned
                 {| ProcessPendingResult.signature :=
                      PayoutBatchBroadcastResponse.signature broadcastResult;
                    ProcessPendingResult.status :=
                      PayoutBatchBroadcastResponse.status broadcastResult;
                    ProcessPendingResult.viewer_url :=
                      PayoutBatchBroadcastResponse.viewer_url broadcastResult;
                    ProcessPendingResult.payouts :=
                      PayoutBatchBroadcastResponse.payouts broadcastResult;
                    ProcessPendingResult.total_amount :=
                      PayoutBatchBuildResponse.total_amount buildResult;
                    ProcessPendingResult.has_more :=
                      ListResponse.has_more page;
                    ProcessPendingResult.failure_message :=
                      PayoutBatchBroadcastResponse.failure_message
                        broadcastResult |}, w4)
          | (Thrown e, w4) => (Thrown e, w4)
          | (Running, w4) => (Running, w4)
          end
      | (Thrown e, w3) => (Thrown e, w3)
      | (Running, w3) => (Running, w3)
      end
  | (Thrown e, w2) => (Thrown e, w2)
  | (Running, w2) => (Running, w2)
  end.
Proof.
  intros Hlist Hdata; simpl.
  unfold Payouts.processBatch.
  rewrite (bind_Returned _ _ _ _ _ Hlist).
  destruct (ListResponse.data page) as [|p rest] eqn:Hpage;
    [contradiction|].
  cbn [length Nat.eqb]; unfold bind.
  destruct (Payouts.build _ _ _ w1) as [[buildResult|e|] w2];
    reflexivity.
Qed.

(** C1. When the list call returns no payout, [processBatch] returns
    the record with an empty signature, the status [paid], an empty
    viewer URL, no payout, the total 0 and [has_more] false, and the
    list request is the only step it has performed: nothing is built,
    signed or broadcast. *)
Theorem nothing_pending_short_circuit (secretKey : string)
    (options : option BatchOptions.t) (w w1 : World Server)
    (page : ListResponse.t Payout.t) :
  list_ (pending (effective_limit options))
        (options ≫= BatchOptions.requestOptions) w = (Returned page, w1) ->
  ListResponse.data page = [] ->
  processBatch secretKey options w
  = (Returned {| ProcessPendingResult.signature := "";
                 ProcessPendingResult.status := paid;
                 ProcessPendingResult.viewer_url := "";
                 ProcessPendingResult.payouts := [];
                 ProcessPendingResult.total_amount := Num 0;
                 ProcessPendingResult.has_more := false;
                 ProcessPendingResult.failure_message := None |}, w1)
  /\ trace w1
     = trace w
       ++ [ListCall (pending (effective_limit options))
                       (options ≫= BatchOptions.requestOptions)].
Proof.
  intros Hlist Hdata; split.
  - unfold Payouts.processBatch.
    rewrite (bind_Returned _ _ _ _ _ Hlist), Hdata; reflexivity.
  - apply request_inv in Hlist as [Htrace _]; exact Htrace.
Qed.

(** What the list request of a round looks like and what the service
    answered to it. *)
Lemma list_inv (params : ListPayoutsInput.t)
    (options : option RequestExtraOptions.t) (w w1 : World Server)
    (page : ListResponse.t Payout.t) :
  list_ params options w = (Returned page, w1) ->
  Get_payouts client (BuildQuery params) options (server w)
  = (inr page, server w1)
  /\ trace w1 = trace w ++ [ListCall params options].
Proof.
  unfold Payouts.list_, request.
  destruct (Get_payouts client _ _ (server w)) as [[e|value] s'];
    intros [= <- <-]; split; reflexivity.
Qed.

Lemma BuildQuery_limit (limit : number) :
  BuildQuery (pending limit) !! "limit"%string = Some (QNumber limit).
Proof. unfold BuildQuery, pending; simpl; apply lookup_insert_eq. Qed.

(** The steps of a round that found payouts pending, after its list
    request: the build request, then the signature, then the broadcast
    request, as far as the round went. *)
Lemma processBatch_steps (secretKey : string)
    (options : option BatchOptions.t) (w w1 w' : World Server)
    (page : ListResponse.t Payout.t)
    (out : Outcome ProcessPendingResult.t) :
  list_ (pending (effective_limit options))
        (options ≫= BatchOptions.requestOptions) w = (Returned page, w1) ->
  ListResponse.data page <> [] ->
  processBatch secretKey options w = (out, w') ->
  let requestOptions := options ≫= BatchOptions.requestOptions in
  let payoutIds := map Payout.id (ListResponse.data page) in
  exists rest,
    trace w'
    = trace w1
      ++ BuildCall
           {| BuildPayoutsBatchInput.payouts := payoutIds |}
           requestOptions :: rest
    /\ ((rest = [] /\ exists e, out = Thrown e)
        \/ (exists unsignedTransaction,
              rest = [SignCall unsignedTransaction] /\ exists e, out = Thrown e)
        \/ (exists unsignedTransaction signedTransaction,
              rest = [SignCall unsignedTransaction;
                      BroadcastCall
                        {| BroadcastPayoutsBatchInput.signed_transaction :=
                             signedTransaction;
                           BroadcastPayoutsBatchInput.payouts := payoutIds |}
                        requestOptions]
              /\ out <> Running)).
Proof.
  intros Hlist Hdata Hrun; simpl.
  rewrite (processBatch_listed _ _ _ _ _ Hlist Hdata) in Hrun; simpl in Hrun.
  destruct (Payouts.build _ _ _ w1) as [built w2] eqn:Hbuild.
  apply request_inv in Hbuild as [Hbuilt Hbuild].
  destruct built as [buildResult|e|]; [| |contradiction]; cycle 1.
  { injection Hrun as <- <-.
    exists []; split; [exact Hbuilt|left; eauto]. }
  destruct (Payouts.SignTransaction _ _ _ w2) as [signing w3] eqn:Hsign.
  unfold Payouts.SignTransaction, local in Hsign.
  apply request_inv in Hsign as [Hsigned Hsign].
  destruct signing as [signedTransaction|e|]; [| |contradiction]; cycle 1.
  { injection Hrun as <- <-.
    eexists; split; [rewrite Hsigned, Hbuilt, <- app_assoc; reflexivity|].
    right; left; eauto. }
  destruct (Payouts.broadcast _ _ _ w3) as [sent w4] eqn:Hsend.
  apply request_inv in Hsend as [Hsent Hsend].
  eexists; split.
  - assert (w' = w4) as -> by (destruct sent; congruence).
    rewrite Hsent, Hsigned, Hbuilt, <- !app_assoc; reflexivity.
  - right; right; do 2 eexists; split; [reflexivity|].
    destruct sent; [| |contradiction]; injection Hrun as <- _; discriminate.
Qed.

(** C2. When the list call returns payouts, the identifiers sent to
    the build call are those of the payouts listed, in the order of
    the list, and the broadcast call, when the round gets that far, is
    sent the very same identifiers. *)
Theorem same_identifiers (secretKey : string)
    (options : option BatchOptions.t) (w w1 w' : World Server)
    (page : ListResponse.t Payout.t)
    (out : Outcome ProcessPendingResult.t) :
  list_ (pending (effective_limit options))
        (options ≫= BatchOptions.requestOptions) w = (Returned page, w1) ->
  ListResponse.data page <> [] ->
  processBatch secretKey options w = (out, w') ->
  let requestOptions := options ≫= BatchOptions.requestOptions in
  let payoutIds := map Payout.id (ListResponse.data page) in
  exists rest,
    trace w'
    = trace w1
      ++ BuildCall
           {| BuildPayoutsBatchInput.payouts := payoutIds |}
           requestOptions :: rest
    /\ ((rest = [] /\ exists e, out = Thrown e)
        \/ (exists unsignedTransaction,
              rest = [SignCall unsignedTransaction] /\ exists e, out = Thrown e)
        \/ (exists unsignedTransaction signedTransaction,
              rest = [SignCall unsignedTransaction;
                      BroadcastCall
                        {| BroadcastPayoutsBatchInput.signed_transaction :=
                             signedTransaction;
                           BroadcastPayoutsBatchInput.payouts := payoutIds |}
                        requestOptions]
              /\ out <> Running)).
Proof. exact (processBatch_steps secretKey options w w1 w' page out). Qed.

(** The steps of a round whose limit is 10. *)
Lemma processBatch_bounded (secretKey : string)
    (options : option BatchOptions.t) (w w' : World Server)
    (out : Outcome ProcessPendingResult.t) :
  effective_limit options = Num 10 ->
  processBatch secretKey options w = (out, w') ->
  exists rest,
    trace w'
    = trace w
      ++ ListCall (pending (Num 10)) (options ≫= BatchOptions.requestOptions)
         :: rest
    /\ ((forall page w1,
           list_ (pending (Num 10)) (options ≫= BatchOptions.requestOptions) w
           = (Returned page, w1) ->
           (length (ListResponse.data page) <= 10)%nat) ->
        Forall (fun step => (length (identifiers step) <= 10)%nat) rest).
Proof.
  intros Heffective Hrun.
  destruct (list_ (pending (effective_limit options))
                  (options ≫= BatchOptions.requestOptions) w)
    as [listed w1] eqn:Hlist.
  destruct listed as [page|e|].
  - destruct (decide (ListResponse.data page = [])) as [Hnil|Hdata].
    + unfold Payouts.processBatch in Hrun.
      rewrite (bind_Returned _ _ _ _ _ Hlist), Hnil in Hrun.
      injection Hrun as <- <-.
      apply list_inv in Hlist as [_ Hlisted].
      rewrite Heffective in Hlisted.
      exists []; auto.
    + destruct (processBatch_steps _ _ _ _ _ _ _ Hlist Hdata Hrun)
        as (rest & Htrace & Hrest).
      rewrite Heffective in Hlist.
      pose proof Hlist as Hlisted; apply list_inv in Hlisted as [_ Hlisted].
      eexists; split;
        [rewrite Htrace, Hlisted, <- app_assoc; reflexivity|].
      intros Hpage.
      assert (length (map Payout.id (ListResponse.data page)) <= 10)%nat
        as Hbound by (rewrite length_map; apply (Hpage page w1 Hlist)).
      apply Forall_cons_2; [exact Hbound|].
      destruct Hrest as [[-> _]|[(u & -> & _)|(u & s & -> & _)]];
        repeat (apply Forall_cons_2; [simpl; solve [lia | exact Hbound]|]);
        apply Forall_nil_2.
  - rewrite (processBatch_list_failed _ _ _ _ _ Hlist) in Hrun.
    injection Hrun as <- <-.
    apply request_inv in Hlist as [Hlisted _].
    rewrite Heffective in Hlisted.
    exists []; auto.
  - apply request_inv in Hlist as [_ Hlist]; contradiction.
Qed.

(** A service that respects the limit answers the list call of a round
    with at most 10 payouts. *)
Lemma respects_limit_listed (options : option RequestExtraOptions.t)
    (w w1 : World Server) (page : ListResponse.t Payout.t) :
  respects_limit client ->
  list_ (pending (Num 10)) options w = (Returned page, w1) ->
  (length (ListResponse.data page) <= 10)%nat.
Proof.
  intros Hrespects Hlist; apply list_inv in Hlist as [Hanswer _].
  pose proof (Hrespects _ _ _ _ _ 10 Hanswer (BuildQuery_limit _)); lia.
Qed.

(** C3. When the caller asks for more than 10 payouts, or gives no
    limit, the limit of the list call, and of the query it sends, is
    10; and if the list call returns at most that many payouts, no
    build or broadcast call of the round carries more than 10
    identifiers. *)
Theorem batch_size_bound (secretKey : string)
    (options : option BatchOptions.t) (w w' : World Server)
    (out : Outcome ProcessPendingResult.t) :
  options ≫= BatchOptions.limit = None
  \/ (exists n : Z, options ≫= BatchOptions.limit = Some (Num n) /\ 10 < n) ->
  processBatch secretKey options w = (out, w') ->
  effective_limit options = Num 10
  /\ exists rest,
       trace w'
       = trace w
         ++ ListCall (pending (Num 10))
              (options ≫= BatchOptions.requestOptions)
            :: rest
       /\ ListPayoutsInput.limit (pending (Num 10)) = Some (Num 10)
       /\ BuildQuery (pending (Num 10)) !! "limit"%string
          = Some (QNumber (Num 10))
       /\ ((forall page w1,
              list_ (pending (Num 10))
                    (options ≫= BatchOptions.requestOptions) w
              = (Returned page, w1) ->
              (length (ListResponse.data page) <= 10)%nat) ->
           Forall (fun step => (length (identifiers step) <= 10)%nat) rest).
Proof.
  intros Hlimit Hrun.
  assert (effective_limit options = Num 10) as Heffective.
  { unfold effective_limit.
    destruct Hlimit as [->|(n & -> & Hn)]; simpl; [reflexivity|].
    f_equal; lia. }
  split; [exact Heffective|].
  destruct (processBatch_bounded _ _ _ _ _ Heffective Hrun)
    as (rest & Htrace & Hbound).
  exists rest; auto using BuildQuery_limit.
Qed.

(** *** The loop of [processAll] *)

Lemma filter_all (results : list ProcessPendingResult.t) :
  Forall settled_any results -> filter settled_any results = results.
Proof.
  induction 1 as [|result results Hany _ IH]; [reflexivity|].
  rewrite filter_cons, decide_True, IH by exact Hany; reflexivity.
Qed.

Lemma push_if_any_filter (results : list ProcessPendingResult.t)
    (result : ProcessPendingResult.t) :
  push_if_any results result = results ++ filter settled_any [result].
Proof.
  unfold push_if_any, settled_any.
  rewrite filter_cons, filter_nil.
  destruct (Nat.ltb_spec 0 (length (ProcessPendingResult.payouts result)))
    as [Hany|Hnone].
  - rewrite decide_True by exact Hany; reflexivity.
  - rewrite decide_False by lia; rewrite app_nil_r; reflexivity.
Qed.

Lemma while_step (fuel : nat) (secretKey : string)
    (options : option RequestExtraOptions.t)
    (results : list ProcessPendingResult.t)
    (result : ProcessPendingResult.t) (w w1 : World Server) :
  round secretKey options w = (Returned result, w1) ->
  processAll_while client solana (S fuel) secretKey options results true w
  = processAll_while client solana fuel secretKey options
      (results ++ filter settled_any [result])
      (ProcessPendingResult.has_more result) w1.
Proof.
  intros Hround; cbn [processAll_while].
  rewrite (bind_Returned _ _ _ _ _ Hround), push_if_any_filter.
  reflexivity.
Qed.

Lemma while_done (fuel : nat) (secretKey : string)
    (options : option RequestExtraOptions.t)
    (results : list ProcessPendingResult.t) (w : World Server) :
  processAll_while client solana fuel secretKey options results false w
  = (Returned results, w).
Proof. destruct fuel; reflexivity. Qed.

(** The bound on the iterations only says how far the model follows
    the loop: an outcome reached within a bound is the outcome within
    every larger one. *)
Lemma while_more_fuel (secretKey : string)
    (options : option RequestExtraOptions.t) (fuel : nat) :
  forall (results : list ProcessPendingResult.t) (hasMore : bool)
         (w w' : World Server) (out : Outcome (list ProcessPendingResult.t)),
    processAll_while client solana fuel secretKey options results hasMore w
    = (out, w') ->
    out <> Running ->
    processAll_while client solana (S fuel) secretKey options results hasMore w
    = (out, w').
Proof.
  induction fuel as [|fuel IH]; intros results hasMore w w' out Hrun Hout;
    (destruct hasMore; [|exact Hrun]).
  - injection Hrun as <- _; contradiction.
  - cbn [processAll_while] in Hrun |- *; unfold bind in Hrun |- *.
    destruct (round secretKey options w) as [[result|e|] w1];
      [|exact Hrun..].
    apply IH; [exact Hrun|exact Hout].
Qed.

(** Whatever the loop does and however it ends, each of its rounds asks
    for 10 payouts, and on a service that respects the limit no step
    carries more than 10 identifiers. *)
Lemma while_bounded (secretKey : string)
    (options : option RequestExtraOptions.t) (fuel : nat) :
  forall (results : list ProcessPendingResult.t) (hasMore : bool)
         (w w' : World Server) (out : Outcome (list ProcessPendingResult.t)),
    respects_limit client ->
    processAll_while client solana fuel secretKey options results hasMore w
    = (out, w') ->
    exists steps,
      trace w' = trace w ++ steps
      /\ Forall (fun step => (length (identifiers step) <= 10)%nat) steps.
Proof.
  induction fuel as [|fuel IH];
    intros results hasMore w w' out Hrespects Hrun;
    (destruct hasMore;
     [|injection Hrun as _ <-; exists []; rewrite app_nil_r; auto]).
  - injection Hrun as _ <-; exists []; rewrite app_nil_r; auto.
  - cbn [processAll_while] in Hrun; unfold bind in Hrun.
    destruct (round secretKey options w) as [first w1] eqn:Hround.
    destruct (processBatch_bounded secretKey
                (Some {| BatchOptions.limit := None;
                         BatchOptions.requestOptions := options |})
                w w1 first eq_refl Hround)
      as (rest & Htrace & Hbound).
    assert (Forall (fun step => (length (identifiers step) <= 10)%nat)
              (ListCall (pending (Num 10)) options :: rest)) as Hsteps.
    { apply Forall_cons_2; [simpl; lia|apply Hbound].
      intros page w2; apply respects_limit_listed, Hrespects. }
    destruct first as [result|e|].
    + destruct (IH _ _ _ _ _ Hrespects Hrun) as (steps & Hmore & Hrest).
      eexists; split; [rewrite Hmore, Htrace, <- app_assoc; reflexivity|].
      apply Forall_app_2; assumption.
    + injection Hrun as _ <-; eauto.
    + injection Hrun as _ <-; eauto.
Qed.

Corollary processAll_bounded (secretKey : string)
    (options : option RequestExtraOptions.t) (fuel : nat)
    (w w' : World Server) (out : Outcome (list ProcessPendingResult.t)) :
  respects_limit client ->
  processAll fuel secretKey options w = (out, w') ->
  exists steps,
    trace w' = trace w ++ steps
    /\ Forall (fun step => (length (identifiers step) <= 10)%nat) steps.
Proof. apply while_bounded. Qed.

Lemma while_successive (secretKey : string)
    (options : option RequestExtraOptions.t)
    (earlier : list ProcessPendingResult.t)
    (final : ProcessPendingResult.t) :
  forall (w w' : World Server) (fuel : nat)
         (results : list ProcessPendingResult.t),
    successive secretKey options w (earlier ++ [final]) w' ->
    Forall (fun r => ProcessPendingResult.has_more r = true) earlier ->
    ProcessPendingResult.has_more final = false ->
    (length earlier < fuel)%nat ->
    processAll_while client solana fuel secretKey options results true w
    = (Returned (results ++ filter settled_any (earlier ++ [final])), w').
Proof.
  induction earlier as [|result earlier IH];
    intros w w' fuel results Hrounds Hmore Hfinal Hfuel;
    (destruct fuel as [|fuel]; [simpl in Hfuel; lia|]);
    inversion Hrounds as [|? w1 ? ? ? Hround Hrest]; subst.
  - inversion Hrest; subst.
    rewrite (while_step _ _ _ _ _ _ _ Hround), Hfinal.
    apply while_done.
  - apply Forall_cons in Hmore as [Hresult Hmore].
    rewrite (while_step _ _ _ _ _ _ _ Hround), Hresult.
    rewrite (IH w1 w' fuel) by (simpl in Hfuel; auto with lia).
    rewrite <- app_assoc, <- filter_app; reflexivity.
Qed.

Lemma while_running (secretKey : string)
    (options : option RequestExtraOptions.t)
    (earlier : list ProcessPendingResult.t)
    (final : ProcessPendingResult.t) :
  forall (w w' : World Server) (fuel : nat)
         (results : list ProcessPendingResult.t),
    successive secretKey options w (earlier ++ [final]) w' ->
    Forall (fun r => ProcessPendingResult.has_more r = true) earlier ->
    (fuel <= length earlier)%nat ->
    fst (processAll_while client solana fuel secretKey options results
           true w) = Running.
Proof.
  induction earlier as [|result earlier IH];
    intros w w' fuel results Hrounds Hmore Hfuel;
    (destruct fuel as [|fuel]; [reflexivity|]);
    simpl in Hfuel; [lia|].
  inversion Hrounds as [|? w1 ? ? ? Hround Hrest]; subst.
  apply Forall_cons in Hmore as [Hresult Hmore].
  rewrite (while_step _ _ _ _ _ _ _ Hround), Hresult.
  apply (IH w1 w'); auto with lia.
Qed.

(** C4. Let [processBatch] be called again and again, as [processAll]
    calls it, and give the results [earlier] followed by [final], every
    result of [earlier] with [has_more] true and [final] with [has_more]
    false.  Then [processAll] runs these rounds and no other: it is
    still running as long as it was given no more iterations than
    [earlier] has rounds, it returns in the world the round [final]
    left, and what it returns are, in the order of the rounds, the
    results whose payout list is not empty. *)
Theorem settlement_loop (secretKey : string)
    (options : option RequestExtraOptions.t)
    (earlier : list ProcessPendingResult.t)
    (final : ProcessPendingResult.t) (w w' : World Server) (fuel : nat) :
  successive secretKey options w (earlier ++ [final]) w' ->
  Forall (fun r => ProcessPendingResult.has_more r = true) earlier ->
  ProcessPendingResult.has_more final = false ->
  ((length earlier < fuel)%nat ->
   processAll fuel secretKey options w
   = (Returned (filter settled_any (earlier ++ [final])), w'))
  /\ ((fuel <= length earlier)%nat ->
      fst (processAll fuel secretKey options w) = Running).
Proof.
  intros Hrounds Hmore Hfinal; split; intros Hfuel.
  - apply (while_successive secretKey options earlier final w w' fuel []);
      assumption.
  - apply (while_running secretKey options earlier final w w' fuel []);
      assumption.
Qed.

(** C5, as the code has it.  Three successive rounds that report
    [has_more] true, true and false, each with payouts, are all three
    appended: [processAll] performs exactly these three rounds and
    returns the three results, in order. *)
Theorem three_rounds (secretKey : string)
    (options : option RequestExtraOptions.t)
    (r1 r2 r3 : ProcessPendingResult.t) (w w' : World Server)
    (fuel : nat) :
  successive secretKey options w [r1; r2; r3] w' ->
  map ProcessPendingResult.has_more [r1; r2; r3] = [true; true; false] ->
  Forall settled_any [r1; r2; r3] ->
  (3 <= fuel)%nat ->
  processAll fuel secretKey options w = (Returned [r1; r2; r3], w')
  /\ length [r1; r2; r3] = 3%nat
  /\ fst (processAll 2 secretKey options w) = Running.
Proof.
  intros Hrounds [= H1 H2 H3] Hany Hfuel.
  assert (Forall (fun r => ProcessPendingResult.has_more r = true) [r1; r2])
    as Hmore by (repeat apply Forall_cons_2; auto).
  split; [|split; [reflexivity|]].
  - unfold Payouts.processAll.
    rewrite (while_successive secretKey options [r1; r2] r3 w w' fuel [])
      by (simpl; auto with lia).
    simpl app; f_equal; f_equal.
    apply filter_all, Hany.
  - apply (while_running secretKey options [r1; r2] r3 w w' 2 []);
      simpl; auto with lia.
Qed.

(** The variables of the loop follow the loop: they stop in the world
    in which the loop stops, and when [processAll] returns, what it
    returns is the variable [results], the variable [hasMore] being
    false. *)
Lemma while_variables (secretKey : string)
    (options : option RequestExtraOptions.t) (fuel : nat) :
  forall (results : list ProcessPendingResult.t) (hasMore : bool)
         (w : World Server),
    (Loop.processAll_variables client solana fuel secretKey options
       results hasMore w).2
    = (processAll_while client solana fuel secretKey options
         results hasMore w).2
    /\ forall returned : list ProcessPendingResult.t,
         (processAll_while client solana fuel secretKey options
            results hasMore w).1 = Returned returned ->
         (Loop.processAll_variables client solana fuel secretKey options
            results hasMore w).1 = (returned, false).
Proof.
  induction fuel as [|fuel IH]; intros results hasMore w.
  - destruct hasMore; (split; [reflexivity|]);
      [discriminate|intros returned [= <-]; reflexivity].
  - destruct hasMore.
    + cbn [processAll_while Loop.processAll_variables]; unfold bind.
      destruct (round secretKey options w) as [[result|e|] w1];
        [apply IH|split; [reflexivity|discriminate]..].
    + split; [reflexivity|intros returned [= <-]; reflexivity].
Qed.

(** C6. The first round returns payouts and [has_more] true; in the
    second round the list, build and signing steps succeed and the
    broadcast throws [e].  Then [processAll] throws [e] itself, in the
    world the failed broadcast left: the last step performed is that
    broadcast, and the effects of the first round stay.  The result of
    the first round was pushed, and when the exception leaves the loop
    the variable [results] holds the result of the first round and
    nothing else, [results] being the variable whose value
    [processAll] returns whenever it returns. *)
Theorem broadcast_failure_stops_loop (secretKey : string)
    (options : option RequestExtraOptions.t)
    (first : ProcessPendingResult.t) (page : ListResponse.t Payout.t)
    (buildResult : PayoutBatchBuildResponse.t) (signedTransaction : string)
    (e : Exn) (w w1 w2 w3 w4 w5 : World Server) (fuel : nat) :
  round secretKey options w = (Returned first, w1) ->
  ProcessPendingResult.payouts first <> [] ->
  ProcessPendingResult.has_more first = true ->
  list_ (pending (Num 10)) options w1 = (Returned page, w2) ->
  ListResponse.data page <> [] ->
  build {| BuildPayoutsBatchInput.payouts :=
             map Payout.id (ListResponse.data page) |}
        options w2 = (Returned buildResult, w3) ->
  SignTransaction
    (PayoutBatchBuildResponse.unsigned_transaction buildResult)
    secretKey w3 = (Returned signedTransaction, w4) ->
  broadcast {| BroadcastPayoutsBatchInput.signed_transaction :=
                 signedTransaction;
               BroadcastPayoutsBatchInput.payouts :=
                 map Payout.id (ListResponse.data page) |}
            options w4 = (Thrown e, w5) ->
  (2 <= fuel)%nat ->
  processAll fuel secretKey options w = (Thrown e, w5)
  /\ processAll fuel secretKey options w
     = processAll_while client solana (fuel - 1) secretKey options
         [first] true w1
  /\ trace w5
     = trace w1
       ++ [ListCall (pending (Num 10)) options;
           BuildCall
             {| BuildPayoutsBatchInput.payouts :=
                  map Payout.id (ListResponse.data page) |} options;
           SignCall (PayoutBatchBuildResponse.unsigned_transaction buildResult);
           BroadcastCall
             {| BroadcastPayoutsBatchInput.signed_transaction :=
                  signedTransaction;
                BroadcastPayoutsBatchInput.payouts :=
                  map Payout.id (ListResponse.data page) |} options]
  /\ push_if_any [] first = [first]
  /\ Loop.processAll_variables client solana fuel secretKey options
       [] true w = ([first], true, w5)
  /\ forall (iterations : nat) (w0 w' : World Server)
            (returned : list ProcessPendingResult.t),
       processAll iterations secretKey options w0 = (Returned returned, w') ->
       Loop.processAll_variables client solana iterations secretKey options
         [] true w0 = (returned, false, w').
Proof.
  intros Hfirst Hany Hmore Hlist Hdata Hbuild Hsign Hsend Hfuel.
  destruct fuel as [|[|fuel]]; [lia|lia|].
  assert (push_if_any [] first = [first]) as Hpush.
  { unfold push_if_any.
    destruct (ProcessPendingResult.payouts first);
      [contradiction|reflexivity]. }
  assert (processAll (S (S fuel)) secretKey options w
          = processAll_while client solana (S fuel) secretKey options
              [first] true w1) as Hloop.
  { unfold Payouts.processAll.
    rewrite (while_step _ _ _ _ _ _ _ Hfirst), Hmore.
    rewrite filter_cons, filter_nil, decide_True; [reflexivity|].
    unfold settled_any.
    destruct (ProcessPendingResult.payouts first);
      [contradiction|simpl; lia]. }
  assert (round secretKey options w1 = (Thrown e, w5)) as Hsecond.
  { unfold Payouts.round.
    rewrite (processBatch_listed secretKey
               (Some {| BatchOptions.limit := None;
                        BatchOptions.requestOptions := options |})
               w1 w2 page Hlist Hdata); simpl.
    rewrite Hbuild, Hsign, Hsend; reflexivity. }
  split; [|split; [|split; [|split; [exact Hpush|split]]]].
  - rewrite Hloop; cbn [processAll_while].
    apply bind_Thrown, Hsecond.
  - rewrite Hloop; repeat f_equal; lia.
  - apply list_inv in Hlist as [_ Hlisted].
    apply request_inv in Hbuild as [Hbuilt _].
    unfold Payouts.SignTransaction, local in Hsign.
    apply request_inv in Hsign as [Hsigned _].
    apply request_inv in Hsend as [Hsent _].
    rewrite Hsent, Hsigned, Hbuilt, Hlisted, <- !app_assoc; reflexivity.
  - cbn [Loop.processAll_variables].
    rewrite Hfirst, Hmore, Hpush, Hsecond; reflexivity.
  - intros iterations w0 w' returned Hreturned.
    destruct (while_variables secretKey options iterations [] true w0)
      as [Hworld Hresults].
    unfold Payouts.processAll in Hreturned.
    rewrite Hreturned in Hworld, Hresults.
    specialize (Hresults returned eq_refl).
    destruct (Loop.processAll_variables _ _ _ _ _ _ _ _) as [variables w''].
    simpl in *; congruence.
Qed.

End Resource.

(** *** The theorems on the sample service *)

Lemma sample_respects_limit : respects_limit Sample.client.
Proof.
  intros query options s page s' n Hget Hlimit.
  simpl in Hget; unfold Sample.get_payouts in Hget; rewrite Hlimit in Hget.
  destruct ((1 <=? n) && (n <=? 100)) eqn:Hn; [|discriminate].
  injection Hget as <- _; simpl.
  rewrite length_take; lia.
Qed.

(** The sample service never carries more than 10 identifiers through a
    settlement. *)
Example sample_loop_bounded :
  exists steps,
    trace (snd (processAll Sample.client Sample.solana 5 "key" None
                  (Sample.world 5 2 None))) = steps
    /\ Forall (fun step => (length (identifiers step) <= 10)%nat) steps.
Proof.
  destruct (processAll_bounded Sample.client Sample.solana "key" None 5
              (Sample.world 5 2 None) _ _ sample_respects_limit
              (surjective_pairing _)) as (steps & Htrace & Hbound).
  exists steps; split; [exact Htrace|exact Hbound].
Qed.

(** Nothing is pending: one list request, and the empty result. *)
Lemma nothing_pending_short_circuit_witness :
  exists w1,
    processBatch Sample.client Sample.solana "key" None (Sample.world 0 10 None)
    = (Returned {| ProcessPendingResult.signature := "";
                   ProcessPendingResult.status := paid;
                   ProcessPendingResult.viewer_url := "";
                   ProcessPendingResult.payouts := [];
                   ProcessPendingResult.total_amount := Num 0;
                   ProcessPendingResult.has_more := false;
                   ProcessPendingResult.failure_message := None |}, w1)
    /\ trace w1 = [ListCall (pending (Num 10)) None].
Proof.
  eexists.
  eapply (nothing_pending_short_circuit Sample.client Sample.solana "key"
            None (Sample.world 0 10 None)).
  - reflexivity.
  - reflexivity.
Defined.

(** Three payouts are pending: they are built and broadcast under the
    identifiers listed. *)
Lemma same_identifiers_witness :
  exists listed rest,
    trace (snd (processBatch Sample.client Sample.solana "key" None
                  (Sample.world 3 10 None)))
    = listed
      ++ BuildCall
           {| BuildPayoutsBatchInput.payouts :=
                ["po_1"; "po_2"; "po_3"]%string |}
           None :: rest
    /\ exists unsignedTransaction signedTransaction,
         rest = [SignCall unsignedTransaction;
                 BroadcastCall
                   {| BroadcastPayoutsBatchInput.signed_transaction :=
                        signedTransaction;
                      BroadcastPayoutsBatchInput.payouts :=
                        ["po_1"; "po_2"; "po_3"]%string |} None].
Proof.
  edestruct (same_identifiers Sample.client Sample.solana "key" None
               (Sample.world 3 10 None)) as (rest & Htrace & Hrest).
  - reflexivity.
  - discriminate.
  - apply surjective_pairing.
  - eexists; exists rest; split; [exact Htrace|].
    destruct Hrest as [[_ [e He]]|[(u & _ & e & He)|(u & s & Hrest & _)]];
      [discriminate He|discriminate He|eauto].
Defined.

(** The caller asks for 50 payouts while 12 are pending: 10 are asked
    of the service, and no request carries more than 10 identifiers. *)
Lemma batch_size_bound_witness :
  effective_limit
    (Some {| BatchOptions.limit := Some (Num 50);
             BatchOptions.requestOptions := None |}) = Num 10
  /\ exists rest,
       trace (snd (processBatch Sample.client Sample.solana "key"
                     (Some {| BatchOptions.limit := Some (Num 50);
                              BatchOptions.requestOptions := None |})
                     (Sample.world 12 100 None)))
       = ListCall (pending (Num 10)) None :: rest
       /\ BuildQuery (pending (Num 10)) !! "limit"%string
          = Some (QNumber (Num 10))
       /\ Forall (fun step => (length (identifiers step) <= 10)%nat) rest.
Proof.
  edestruct (batch_size_bound Sample.client Sample.solana "key"
               (Some {| BatchOptions.limit := Some (Num 50);
                        BatchOptions.requestOptions := None |})
               (Sample.world 12 100 None))
    as (Hlimit & rest & Htrace & _ & Hquery & Hbound).
  - right; exists 50; split; [reflexivity|lia].
  - apply surjective_pairing.
  - split; [exact Hlimit|].
    exists rest; split; [exact Htrace|split; [exact Hquery|]].
    apply Hbound; intros page w1 Hlist.
    vm_compute in Hlist; injection Hlist as <- _.
    simpl; lia.
Defined.

(** The three rounds that settle 5 pending payouts on a service whose
    pages hold 2. *)
Lemma sample_rounds :
  exists r1 r2 r3 w',
    successive Sample.client Sample.solana "key" None (Sample.world 5 2 None)
      [r1; r2; r3] w'
    /\ map ProcessPendingResult.has_more [r1; r2; r3] = [true; true; false]
    /\ map (fun r => length (ProcessPendingResult.payouts r)) [r1; r2; r3]
       = [2; 2; 1]%nat
    /\ processAll Sample.client Sample.solana 3 "key" None
         (Sample.world 5 2 None) = (Returned [r1; r2; r3], w').
Proof.
  do 4 eexists; split; [|split; [|split]].
  - eapply successive_round; [vm_compute; reflexivity|].
    eapply successive_round; [vm_compute; reflexivity|].
    eapply successive_round; [vm_compute; reflexivity|].
    apply successive_none.
  - reflexivity.
  - reflexivity.
  - vm_compute; reflexivity.
Qed.

(** With 5 payouts pending and pages of 2, the loop runs three rounds
    and returns the results of the three. *)
Lemma settlement_loop_witness :
  exists results w',
    processAll Sample.client Sample.solana 5 "key" None (Sample.world 5 2 None)
    = (Returned results, w')
    /\ map (fun r => length (ProcessPendingResult.payouts r)) results
       = [2; 2; 1]%nat
    /\ fst (processAll Sample.client Sample.solana 2 "key" None
              (Sample.world 5 2 None)) = Running.
Proof.
  destruct sample_rounds as (r1 & r2 & r3 & w' & Hrounds & Hmore & Hany & _).
  injection Hmore as H1 H2 H3.
  pose proof (fun fuel =>
    settlement_loop Sample.client Sample.solana "key" None [r1; r2] r3
      (Sample.world 5 2 None) w' fuel Hrounds
      (Forall_cons_2 _ _ _ H1 (Forall_cons_2 _ _ _ H2 (Forall_nil_2 _))) H3)
    as Hloop.
  destruct (Hloop 5%nat) as [Hreturns _], (Hloop 2%nat) as [_ Hrunning].
  exists (filter settled_any [r1; r2; r3]), w'; split; [|split].
  - apply Hreturns; simpl; lia.
  - injection Hany as Hr1 Hr2 Hr3.
    rewrite !filter_cons, filter_nil; unfold settled_any.
    rewrite !decide_True by lia.
    simpl; congruence.
  - apply Hrunning; simpl; lia.
Defined.

(** C5, refuted as stated: on the sample service with 5 pending
    payouts and pages of 2 the three rounds report [has_more] true, true
    and false, each settles payouts, and [processAll] returns three
    results, not two. *)
Lemma three_rounds_counterexample :
  exists results w',
    successive Sample.client Sample.solana "key" None (Sample.world 5 2 None)
      results w'
    /\ map ProcessPendingResult.has_more results = [true; true; false]
    /\ Forall settled_any results
    /\ processAll Sample.client Sample.solana 3 "key" None
         (Sample.world 5 2 None) = (Returned results, w')
    /\ length results <> 2%nat.
Proof.
  destruct sample_rounds as (r1 & r2 & r3 & w' & Hrounds & Hmore & Hany & Hall).
  exists [r1; r2; r3], w'.
  split; [exact Hrounds|split; [exact Hmore|split; [|split; [exact Hall|]]]].
  - injection Hany as Hr1 Hr2 Hr3; unfold settled_any.
    repeat apply Forall_cons_2; try apply Forall_nil_2; lia.
  - simpl; lia.
Qed.

(** The same three rounds: all three results are returned, and two
    iterations do not finish the loop. *)
Lemma three_rounds_witness :
  exists r1 r2 r3 w',
    processAll Sample.client Sample.solana 4 "key" None (Sample.world 5 2 None)
    = (Returned [r1; r2; r3], w')
    /\ fst (processAll Sample.client Sample.solana 2 "key" None
              (Sample.world 5 2 None)) = Running.
Proof.
  destruct sample_rounds as (r1 & r2 & r3 & w' & Hrounds & Hmore & Hany & _).
  exists r1, r2, r3, w'.
  destruct (three_rounds Sample.client Sample.solana "key" None r1 r2 r3
              (Sample.world 5 2 None) w' 4 Hrounds Hmore)
    as (Hreturns & _ & Hrunning).
  - injection Hany as Hr1 Hr2 Hr3; unfold settled_any.
    repeat apply Forall_cons_2; try apply Forall_nil_2; lia.
  - lia.
  - split; assumption.
Defined.

(** The service refuses the second broadcast: [processAll] throws what
    the service answered, after eight steps, the last of which is the
    broadcast refused. *)
Lemma broadcast_failure_stops_loop_witness :
  exists w5 first,
    processAll Sample.client Sample.solana 5 "key" None
      (Sample.world 5 2 (Some 2%nat))
    = (Thrown (ZonelessApiError "api_error" "Blockhash expired" None None 500),
       w5)
    /\ map identifiers (trace w5)
       = [ []; ["po_1"; "po_2"]; []; ["po_1"; "po_2"];
           []; ["po_3"; "po_4"]; []; ["po_3"; "po_4"] ]%string
    /\ Loop.processAll_variables Sample.client Sample.solana 5 "key" None
         [] true (Sample.world 5 2 (Some 2%nat))
       = ([first], true, w5)
    /\ map Payout.id (ProcessPendingResult.payouts first)
       = ["po_1"; "po_2"]%string.
Proof.
  do 2 eexists.
  epose proof
    (broadcast_failure_stops_loop Sample.client Sample.solana "key"
       None _ _ _ _ _ (Sample.world 5 2 (Some 2%nat)) _ _ _ _ _ 5) as Hloop.
  edestruct Hloop as (Hthrown & _ & Htrace & _ & Hvariables & _).
  - vm_compute; reflexivity.
  - discriminate.
  - reflexivity.
  - vm_compute; reflexivity.
  - discriminate.
  - vm_compute; reflexivity.
  - vm_compute; reflexivity.
  - vm_compute; reflexivity.
  - lia.
  - split; [exact Hthrown|split; [|split; [exact Hvariables|reflexivity]]].
    rewrite Htrace; vm_compute; reflexivity.
Defined.

End PayoutProperties.

(* ================================================================= *)
(** ** Webhooks.ts: what else the verifier does *)

Module WebhookEdges.

Import Js Webhooks WebhookProperties.

(** *** Items of a header *)

Lemma split_inhabited (sep : ascii) (s : string) : split sep s <> [].
Proof.
  induction s as [|c s IH]; simpl; [discriminate|].
  destruct (Ascii.eqb c sep); [discriminate|].
  destruct (split sep s); discriminate.
Qed.

Lemma split_items (sep : ascii) (a b : string) :
  split sep (a ++ String sep b) = split sep a ++ split sep b.
Proof.
  induction a as [|c a IH]; simpl.
  - rewrite Ascii.eqb_refl; reflexivity.
  - destruct (Ascii.eqb c sep); [rewrite IH; reflexivity|].
    rewrite IH.
    pose proof (split_inhabited sep a) as Hne.
    destruct (split sep a); [contradiction|reflexivity].
Qed.

Lemma values_of_items (key a b : string) :
  values_of key (a ++ String "," b) = values_of key a ++ values_of key b.
Proof.
  unfold values_of, pairs.
  rewrite split_items, omap_app, filter_app, map_app; reflexivity.
Qed.

(** X1. [Verify] throws the error "Unable to extract timestamp and
    signatures from header" exactly when the header has no pair of key
    [t] or no pair of key [v1], a pair being an item with a key and a
    value that are not empty; the payload, the secret, the clock and
    the tolerance play no part in it. *)
Theorem extraction_error_iff (createHmac_sha256_hex : string -> string -> string)
    (Date_now : Z) (payload header secret : string) (tolerance : number) :
  Verify createHmac_sha256_hex Date_now payload header secret tolerance
  = inl MissingSignatureError
  <-> values_of "t" header = [] \/ values_of "v1" header = [].
Proof.
  rewrite Verify_cases.
  destruct (values_of "t" header) as [|ts others];
    [split; [left; reflexivity | reflexivity]|].
  destruct (values_of "v1" header) as [|sig sigs];
    [split; [right; reflexivity | reflexivity]|].
  destruct (gt tolerance (Num 0) && _);
    [split; [discriminate | intros [?|?]; discriminate]|].
  destruct (bool_decide _);
    (split; [discriminate | intros [?|?]; discriminate]).
Qed.

(** X2. When the time of the clock is a safe integer and the
    tolerance and the timestamp of the header are safe integers or
    [NaN], [Verify] throws the error "Timestamp outside the tolerance
    zone" exactly when the header has a [v1] pair, its first [t] value
    reads as an integer [t], the tolerance is a number above 0 and
    [now - t] exceeds it.  So a timestamp in the future is never
    refused as stale, and a tolerance that is 0, negative or [NaN]
    switches the check off. *)
Theorem tolerance_error_iff (createHmac_sha256_hex : string -> string -> string)
    (Date_now : Z) (payload header secret : string) (tolerance : number) :
  safe Date_now ->
  exact tolerance ->
  (forall ts : string,
     head (values_of "t" header) = Some ts -> exact (parseInt ts)) ->
  Verify createHmac_sha256_hex Date_now payload header secret tolerance
  = inl TimestampToleranceError
  <-> exists (ts : string) (t tol : Z),
        head (values_of "t" header) = Some ts
        /\ values_of "v1" header <> []
        /\ parseInt ts = Num t
        /\ tolerance = Num tol
        /\ 0 < tol
        /\ tol < Date_now / 1000 - t.
Proof.
  intros _ _ _; rewrite Verify_cases.
  destruct (values_of "t" header) as [|ts others].
  { split; [discriminate|intros (? & ? & ? & ? & _); discriminate]. }
  destruct (values_of "v1" header) as [|sig sigs].
  { split; [discriminate|intros (? & ? & ? & _ & ? & _); contradiction]. }
  destruct tolerance as [tol|], (parseInt ts) as [t|] eqn:Hts; simpl.
  - destruct (Z.gtb_spec tol 0) as [Htol|Htol],
             (Z.gtb_spec (Date_now / 1000 - t) tol) as [Hold|Hold]; simpl.
    + split; [intros _|reflexivity].
      exists ts, t, tol; repeat split; try assumption; try lia; discriminate.
    + destruct (bool_decide _);
        (split; [discriminate|intros (? & ? & ? & [= <-] & _ & Ht & [= <-] & _ & ?)]);
        rewrite Hts in Ht; injection Ht as <-; lia.
    + destruct (bool_decide _);
        (split; [discriminate|intros (? & ? & ? & _ & _ & _ & [= <-] & ? & _)]); lia.
    + destruct (bool_decide _);
        (split; [discriminate|intros (? & ? & ? & _ & _ & _ & [= <-] & ? & _)]); lia.
  - rewrite andb_false_r.
    destruct (bool_decide _);
      (split; [discriminate|intros (? & ? & ? & [= <-] & _ & Ht & _)]);
      rewrite Hts in Ht; discriminate.
  - destruct (bool_decide _);
      (split; [discriminate|intros (? & ? & ? & _ & _ & _ & ? & _)]); discriminate.
  - destruct (bool_decide _);
      (split; [discriminate|intros (? & ? & ? & _ & _ & _ & ? & _)]); discriminate.
Qed.

(** X3. The verdict of [Verify] depends on the header through the
    integer its first [t] value reads as and through the list of its
    [v1] values only: pairs of other keys, items that are not pairs,
    later [t] values and the spelling of the timestamp (a sign, leading
    blanks, text after the digits) do not change it. *)
Theorem verdict_reads_first_t_and_v1
    (createHmac_sha256_hex : string -> string -> string)
    (Date_now : Z) (payload secret : string) (tolerance : number)
    (header header' : string) :
  parseInt <$> head (values_of "t" header)
  = parseInt <$> head (values_of "t" header') ->
  values_of "v1" header = values_of "v1" header' ->
  Verify createHmac_sha256_hex Date_now payload header secret tolerance
  = Verify createHmac_sha256_hex Date_now payload header' secret tolerance.
Proof.
  intros Ht Hv1; rewrite !Verify_cases, <- Hv1.
  destruct (values_of "t" header) as [|ts others],
           (values_of "t" header') as [|ts' others'];
    try discriminate; [reflexivity|].
  injection Ht as ->; reflexivity.
Qed.

Lemma verdict_reads_first_t_and_v1_witness :
  Verify Sha256.createHmac_sha256_hex 1700000000123 "{}"
    "t=1699999700,v1=8acd93b33a4123715a7c477c4533043d459b1c2a75fbdd622f276f643aaca153"
    "whsec_test" (Num 300)
  = Verify Sha256.createHmac_sha256_hex 1700000000123 "{}"
      "v0=6db2f065,t= +1699999700.9 GMT,junk,=x,t=12,v1=8acd93b33a4123715a7c477c4533043d459b1c2a75fbdd622f276f643aaca153,v1="
      "whsec_test" (Num 300).
Proof.
  apply verdict_reads_first_t_and_v1; vm_compute; reflexivity.
Defined.

(** X4. Items are not trimmed: in a header written with a space after
    the comma, [t=<ts>, v1=<sig>], the second pair has the key " v1",
    the header has no [v1] value, and [Verify] refuses it with the
    extraction error, whatever the signature is. *)
Theorem space_after_comma_hides_pair
    (createHmac_sha256_hex : string -> string -> string)
    (Date_now : Z) (payload secret ts sig : string) (tolerance : number) :
  plain ts -> plain sig ->
  values_of "v1" ("t=" ++ ts ++ ", v1=" ++ sig) = []
  /\ Verify createHmac_sha256_hex Date_now payload
       ("t=" ++ ts ++ ", v1=" ++ sig) secret tolerance
     = inl MissingSignatureError.
Proof.
  intros Hts Hsig.
  assert (values_of "v1" ("t=" ++ ts ++ ", v1=" ++ sig) = []) as Hnone.
  { change ("t=" ++ ts ++ ", v1=" ++ sig)%string
      with (("t=" ++ ts) ++ String "," (" v1" ++ String "=" sig))%string.
    rewrite values_of_items.
    unfold values_of at 2, pairs.
    rewrite JsProperties.split_free by
      (cbn [free_of String.append Ascii.eqb Bool.eqb negb andb]; apply Hsig).
    cbn [omap list_omap].
    rewrite (pair_of_plain " v1" sig eq_refl eq_refl Hsig).
    rewrite app_nil_r.
    change ("t=" ++ ts)%string with ("t" ++ String "=" ts)%string.
    unfold values_of, pairs.
    rewrite JsProperties.split_free by
      (cbn [free_of String.append Ascii.eqb Bool.eqb negb andb]; apply Hts).
    cbn [omap list_omap].
    rewrite (pair_of_plain "t" ts eq_refl eq_refl Hts); reflexivity. }
  split; [exact Hnone|apply Verify_no_candidate, Hnone].
Qed.

(** X5. Signing and verifying agree: the header [t=<t>,v1=<digest>]
    made of the decimal numeral of a safe integer [t] and of the keyed
    digest of [<t>.<payload>] is accepted under the same secret,
    provided the digest is written without [","] and ["="] (as a
    hexadecimal digest is) and [t] is not older than a tolerance above
    0; under any other tolerance it is accepted whatever [t] is.  The
    time of the clock is a safe integer, the tolerance one or [NaN]. *)
Theorem signed_header_is_accepted
    (createHmac_sha256_hex : string -> string -> string)
    (Date_now : Z) (payload secret : string) (t : Z) (tolerance : number) :
  safe t ->
  safe Date_now ->
  exact tolerance ->
  let timestamp := toString (Num t) in
  let sig :=
    createHmac_sha256_hex secret (timestamp ++ "." ++ payload)%string in
  plain sig ->
  (forall tol : Z,
     tolerance = Num tol -> 0 < tol -> Date_now / 1000 - t <= tol) ->
  Verify createHmac_sha256_hex Date_now payload
    ("t=" ++ timestamp ++ ",v1=" ++ sig) secret tolerance = inr tt.
Proof.
  intros _ _ _ timestamp sig Hsig Hfresh.
  destruct (values_of_canonical timestamp sig (plain_toString _) Hsig)
    as [Ht Hv1].
  rewrite (Verify_extracted _ _ _ _ _ timestamp), Hv1
    by (rewrite ?Ht, ?Hv1; done).
  subst sig timestamp.
  rewrite (JsProperties.parseInt_toString t).
  rewrite bool_decide_eq_true_2 by (apply list_elem_of_singleton; reflexivity).
  destruct tolerance as [tol|]; [|reflexivity]; simpl.
  destruct (Z.gtb_spec tol 0) as [Htol|Htol]; [|reflexivity].
  specialize (Hfresh tol eq_refl Htol).
  replace (Date_now / 1000 - t >? tol) with false by lia.
  reflexivity.
Qed.

Section Events.

Variable createHmac_sha256_hex : string -> string -> string.
Variable Date_now : Z.
Variable Event : Type.
Variable JSON_parse : string -> option Event.

Abbreviation constructEvent :=
  (Webhooks.constructEvent createHmac_sha256_hex Date_now Event JSON_parse).

(** X6. Without its fourth argument [constructEvent] applies the
    tolerance 300: for a header with a [v1] value whose timestamp reads
    as the safe integer [t], and a clock whose time is a safe integer,
    it throws the tolerance error when [now - t] exceeds 300,
    and otherwise the mismatch error when no [v1] value is the expected
    digest; the payload is handed to [JSON.parse] only in the remaining
    case, and the outcome is then that of [JSON.parse]. *)
Theorem constructEvent_default_tolerance
    (payload header secret ts : string) (t : Z) :
  head (values_of "t" header) = Some ts ->
  parseInt ts = Num t ->
  safe t ->
  safe Date_now ->
  values_of "v1" header <> [] ->
  let expected :=
    createHmac_sha256_hex secret (signedPayload (Num t) payload) in
  (300 < Date_now / 1000 - t ->
   constructEvent payload header secret None
   = inl (VerificationFailed TimestampToleranceError))
  /\ (Date_now / 1000 - t <= 300 ->
      expected ∉ values_of "v1" header ->
      constructEvent payload header secret None
      = inl (VerificationFailed SignatureMismatchError))
  /\ (Date_now / 1000 - t <= 300 ->
      expected ∈ values_of "v1" header ->
      constructEvent payload header secret None
      = match JSON_parse payload with
        | Some event => inr event
        | None => inl SyntaxError
        end).
Proof.
  intros Ht Hts _ _ Hv1 expected; unfold Webhooks.constructEvent.
  rewrite (Verify_extracted _ _ _ _ _ ts) by assumption.
  rewrite Hts; fold expected; unfold nullish, DEFAULT_TOLERANCE; simpl.
  split; [|split].
  - intros Hold; replace (Date_now / 1000 - t >? 300) with true by lia.
    reflexivity.
  - intros Hfresh Hnone.
    replace (Date_now / 1000 - t >? 300) with false by lia.
    rewrite bool_decide_eq_false_2 by exact Hnone; reflexivity.
  - intros Hfresh Hsome.
    replace (Date_now / 1000 - t >? 300) with false by lia.
    rewrite bool_decide_eq_true_2 by exact Hsome; reflexivity.
Qed.

End Events.

(** The clock reads 1700000000 s: under the tolerance 300 a header
    marked 1699999699 is refused as stale, whatever its candidate is. *)
Lemma tolerance_error_iff_witness :
  Verify Sha256.createHmac_sha256_hex 1700000000123 "{}"
    "t=1699999699,v1=c0ffee" "whsec_test" (Num 300)
  = inl TimestampToleranceError.
Proof.
  pose proof
    (tolerance_error_iff Sha256.createHmac_sha256_hex 1700000000123 "{}"
       "t=1699999699,v1=c0ffee" "whsec_test" (Num 300)) as Hiff.
  destruct Hiff as [_ Hstale];
    [JsProperties.in_range | JsProperties.in_range
    | intros ts [= <-]; JsProperties.in_range |].
  apply Hstale.
  exists "1699999699"%string, 1699999699, 300.
  repeat split; try reflexivity; discriminate.
Defined.

(** A header with a space after the comma, as a list of values is often
    written, is refused for want of a signature. *)
Lemma space_after_comma_hides_pair_witness :
  values_of "v1"
    ("t=" ++ "1699999700" ++ ", v1="
     ++ "8acd93b33a4123715a7c477c4533043d459b1c2a75fbdd622f276f643aaca153")
  = []
  /\ Verify Sha256.createHmac_sha256_hex 1700000000123 "{}"
       ("t=" ++ "1699999700" ++ ", v1="
        ++ "8acd93b33a4123715a7c477c4533043d459b1c2a75fbdd622f276f643aaca153")
       "whsec_test" (Num 300) = inl MissingSignatureError.
Proof.
  apply (space_after_comma_hides_pair Sha256.createHmac_sha256_hex
           1700000000123 "{}" "whsec_test" "1699999700"
           "8acd93b33a4123715a7c477c4533043d459b1c2a75fbdd622f276f643aaca153"
           (Num 300));
    repeat split; reflexivity.
Defined.

(** With HMAC-SHA256: a header signed an hour ahead of the clock is
    accepted under the tolerance 300, and one signed a day before it
    under the tolerance 0. *)
Lemma signed_header_is_accepted_witness :
  Verify Sha256.createHmac_sha256_hex 1700000000123 "{}"
    ("t=" ++ toString (Num 1700003600) ++ ",v1="
     ++ Sha256.createHmac_sha256_hex "whsec_test"
          (toString (Num 1700003600) ++ "." ++ "{}"))
    "whsec_test" (Num 300) = inr tt
  /\ Verify Sha256.createHmac_sha256_hex 1700000000123 "{}"
       ("t=" ++ toString (Num 1699913600) ++ ",v1="
        ++ Sha256.createHmac_sha256_hex "whsec_test"
             (toString (Num 1699913600) ++ "." ++ "{}"))
       "whsec_test" (Num 0) = inr tt.
Proof.
  split.
  - apply (signed_header_is_accepted Sha256.createHmac_sha256_hex
             1700000000123 "{}" "whsec_test" 1700003600 (Num 300)).
    + JsProperties.in_range.
    + JsProperties.in_range.
    + JsProperties.in_range.
    + apply Sha256Properties.hmac_plain.
    + intros tol [= <-] _; vm_compute; discriminate.
  - apply (signed_header_is_accepted Sha256.createHmac_sha256_hex
             1700000000123 "{}" "whsec_test" 1699913600 (Num 0)).
    + JsProperties.in_range.
    + JsProperties.in_range.
    + JsProperties.in_range.
    + apply Sha256Properties.hmac_plain.
    + intros tol [= <-] Htol; lia.
Defined.

(** The clock reads 1700000000 s and no tolerance is given.  A header
    marked 1699999699, 301 s old, is refused; one marked 1699999700 and
    signed is accepted, and the payload is parsed. *)
Lemma constructEvent_default_tolerance_witness :
  Webhooks.constructEvent Sha256.createHmac_sha256_hex 1700000000123 string
    (fun text => if String.eqb text "{}" then Some text else None) "{}"
    "t=1699999699,v1=42baf62df1148cc8dab1b4ac1ef2abf43713fc8fac7f20eb4470449733e7122c"
    "whsec_test" None
  = inl (VerificationFailed TimestampToleranceError)
  /\ Webhooks.constructEvent Sha256.createHmac_sha256_hex 1700000000123 string
       (fun text => if String.eqb text "{}" then Some text else None) "{}"
       "t=1699999700,v1=8acd93b33a4123715a7c477c4533043d459b1c2a75fbdd622f276f643aaca153"
       "whsec_test" None
     = inr "{}"%string.
Proof.
  pose proof
    (constructEvent_default_tolerance Sha256.createHmac_sha256_hex
       1700000000123 string
       (fun text => if String.eqb text "{}" then Some text else None) "{}"
       "t=1699999699,v1=42baf62df1148cc8dab1b4ac1ef2abf43713fc8fac7f20eb4470449733e7122c"
       "whsec_test" "1699999699" 1699999699 eq_refl eq_refl)
    as Hstale.
  pose proof
    (constructEvent_default_tolerance Sha256.createHmac_sha256_hex
       1700000000123 string
       (fun text => if String.eqb text "{}" then Some text else None) "{}"
       "t=1699999700,v1=8acd93b33a4123715a7c477c4533043d459b1c2a75fbdd622f276f643aaca153"
       "whsec_test" "1699999700" 1699999700 eq_refl eq_refl)
    as Hfresh.
  destruct Hstale as [Hstale _];
    [JsProperties.in_range|JsProperties.in_range|discriminate|].
  destruct Hfresh as (_ & _ & Hfresh);
    [JsProperties.in_range|JsProperties.in_range|discriminate|].
  split.
  - apply Hstale; reflexivity.
  - rewrite Hfresh; [reflexivity|vm_compute; discriminate|].
    apply (bool_decide_unpack _); vm_compute; exact I.
Defined.

End WebhookEdges.

(* ================================================================= *)
(** ** Payouts.ts: what else the pipeline does *)

Module PayoutEdges.

Import Js Payouts Calls PayoutProperties.

Section Resource.

Context {Server : Type}.
Variable client : HttpClient Server.
Variable solana : Solana.

Abbreviation processBatch := (Payouts.processBatch client solana).
Abbreviation processAll := (Payouts.processAll client solana).
Abbreviation list_ := (Payouts.list_ client).
Abbreviation build := (Payouts.build client).
Abbreviation round := (Payouts.round client solana).

Lemma round_carries (secretKey : string)
    (options : option RequestExtraOptions.t) (w : World Server) :
  exists steps,
    trace (round secretKey options w).2 = trace w ++ steps
    /\ Forall (carries options) steps.
Proof.
  unfold Payouts.round, Payouts.processBatch, bind, Payouts.list_,
    Payouts.build, Payouts.broadcast, Payouts.SignTransaction, local, request.
  cbn [effective_limit mbind option_bind BatchOptions.limit
       BatchOptions.requestOptions nullish Math_min].
  change (Z.min 10 10) with 10.
  destruct (Get_payouts client _ options (server w)) as [[e|page] s1];
    cbn [server trace].
  { eexists; split; [reflexivity|].
    apply Forall_cons_2; [split; reflexivity|apply Forall_nil_2]. }
  destruct (length (ListResponse.data page) =? 0)%nat.
  { eexists; split; [reflexivity|].
    apply Forall_cons_2; [split; reflexivity|apply Forall_nil_2]. }
  unfold bind; cbn [server trace].
  destruct (Post_payouts_build client _ options s1) as [[e|built] s2];
    cbn [server trace].
  { eexists; split; [rewrite <- app_assoc; reflexivity|].
    repeat (apply Forall_cons_2; [simpl; auto|]); apply Forall_nil_2. }
  destruct (signed solana _ secretKey) as [e|signedTransaction];
    cbn [server trace].
  { eexists; split; [rewrite <- !app_assoc; reflexivity|].
    repeat (apply Forall_cons_2; [simpl; auto|]); apply Forall_nil_2. }
  destruct (Post_payouts_broadcast client _ options s2) as [[e|sent] s3];
    cbn [server trace];
    (eexists; split; [rewrite <- !app_assoc; reflexivity|]);
    repeat (apply Forall_cons_2; [simpl; auto|]); apply Forall_nil_2.
Qed.

Lemma while_carries (secretKey : string)
    (options : option RequestExtraOptions.t) (fuel : nat) :
  forall (results : list ProcessPendingResult.t) (hasMore : bool)
         (w : World Server),
  exists steps,
    trace (processAll_while client solana fuel secretKey options
             results hasMore w).2 = trace w ++ steps
    /\ Forall (carries options) steps.
Proof.
  induction fuel as [|fuel IH]; intros results hasMore w;
    (destruct hasMore;
     [|exists []; rewrite while_done, app_nil_r; split;
       [reflexivity|apply Forall_nil_2]]).
  - exists []; rewrite app_nil_r; split; [reflexivity|apply Forall_nil_2].
  - cbn [processAll_while]; unfold bind.
    destruct (round_carries secretKey options w) as (first & Htrace & Hfirst).
    destruct (round secretKey options w) as [[result|e|] w1];
      cbn [snd] in Htrace |- *; [|eauto..].
    destruct (IH (push_if_any results result)
                (ProcessPendingResult.has_more result) w1)
      as (rest & Hrest & Hcarried).
    exists (first ++ rest); split.
    + rewrite Hrest, Htrace, <- app_assoc; reflexivity.
    + apply Forall_app_2; assumption.
Qed.

(** X7. Whatever [processAll] does and however it ends, every list
    call it makes asks for the pending payouts with the limit 10, and
    every list, build and broadcast call is given the request options
    of the caller as they are: the same headers, account and
    idempotency key go with every request of every round. *)
Theorem options_reach_every_call (fuel : nat) (secretKey : string)
    (options : option RequestExtraOptions.t) (w : World Server) :
  exists steps,
    trace (processAll fuel secretKey options w).2 = trace w ++ steps
    /\ Forall (carries options) steps.
Proof. apply while_carries. Qed.

(** X8. In a round that found payouts pending, a build request that
    fails ends [processBatch] with that failure after the list and the
    build requests, and a signature that fails (a secret key that
    cannot be decoded, for one) ends it with that failure after the
    list request, the build request and the attempt to sign: nothing
    is broadcast, and the service is in the state the build request
    left it in. *)
Theorem failure_before_broadcast (secretKey : string)
    (options : option BatchOptions.t) (w w1 : World Server)
    (page : ListResponse.t Payout.t) :
  list_ (pending (effective_limit options))
        (options ≫= BatchOptions.requestOptions) w = (Returned page, w1) ->
  ListResponse.data page <> [] ->
  let requestOptions := options ≫= BatchOptions.requestOptions in
  let listed := ListCall (pending (effective_limit options)) requestOptions in
  let params :=
    {| BuildPayoutsBatchInput.payouts :=
         map Payout.id (ListResponse.data page) |} in
  (forall (e : Exn) (w2 : World Server),
     build params requestOptions w1 = (Thrown e, w2) ->
     processBatch secretKey options w = (Thrown e, w2)
     /\ trace w2 = trace w ++ [listed; BuildCall params requestOptions])
  /\ (forall (built : PayoutBatchBuildResponse.t) (e : Exn)
             (w2 : World Server),
        build params requestOptions w1 = (Returned built, w2) ->
        signed solana
          (PayoutBatchBuildResponse.unsigned_transaction built) secretKey
        = inl e ->
        exists w3,
          processBatch secretKey options w = (Thrown e, w3)
          /\ server w3 = server w2
          /\ trace w3
             = trace w
               ++ [listed; BuildCall params requestOptions;
                   SignCall
                     (PayoutBatchBuildResponse.unsigned_transaction built)]).
Proof.
  intros Hlist Hdata requestOptions listed params.
  pose proof (processBatch_listed client solana secretKey options w w1 page
                Hlist Hdata) as Hbatch.
  cbn zeta in Hbatch; fold requestOptions params in Hbatch.
  apply request_inv in Hlist as [Hlisted _].
  split.
  - intros e w2 Hbuild; rewrite Hbatch, Hbuild.
    apply request_inv in Hbuild as [Hbuilt _].
    split; [reflexivity|].
    rewrite Hbuilt, Hlisted, <- app_assoc; reflexivity.
  - intros built e w2 Hbuild Hsigned; rewrite Hbatch, Hbuild.
    apply request_inv in Hbuild as [Hbuilt _].
    unfold Payouts.SignTransaction, local, request; rewrite Hsigned.
    eexists; split; [reflexivity|split; [reflexivity|]].
    cbn [trace]; rewrite Hbuilt, Hlisted, <- !app_assoc; reflexivity.
Qed.

(** X9. When the first list call of [processAll] returns no payout,
    [processAll] returns the empty array, and that list call is all it
    did: nothing is built or signed, and the secret key is not looked
    at. *)
Theorem nothing_to_settle (fuel : nat) (secretKey : string)
    (options : option RequestExtraOptions.t) (w w1 : World Server)
    (page : ListResponse.t Payout.t) :
  list_ (pending (Num 10)) options w = (Returned page, w1) ->
  ListResponse.data page = [] ->
  processAll (S fuel) secretKey options w = (Returned [], w1)
  /\ trace w1 = trace w ++ [ListCall (pending (Num 10)) options].
Proof.
  intros Hlist Hdata.
  assert (round secretKey options w = (Returned nothing_pending, w1))
    as Hround.
  { unfold Payouts.round, Payouts.processBatch.
    change (effective_limit _) with (Num 10).
    cbn [mbind option_bind BatchOptions.requestOptions].
    rewrite (bind_Returned _ _ _ _ _ Hlist), Hdata; reflexivity. }
  split.
  - unfold Payouts.processAll.
    rewrite (while_step _ _ _ _ _ _ _ _ _ Hround).
    apply while_done.
  - apply request_inv in Hlist as [Htrace _]; exact Htrace.
Qed.

Lemma while_settled (secretKey : string)
    (options : option RequestExtraOptions.t) (fuel : nat) :
  forall (results returned : list ProcessPendingResult.t) (hasMore : bool)
         (w w' : World Server),
    Forall settled_any results ->
    processAll_while client solana fuel secretKey options results hasMore w
    = (Returned returned, w') ->
    Forall settled_any returned.
Proof.
  induction fuel as [|fuel IH]; intros results returned hasMore w w' Hany Hrun;
    (destruct hasMore; [|rewrite while_done in Hrun; congruence]).
  - discriminate.
  - cbn [processAll_while] in Hrun; unfold bind in Hrun.
    destruct (round secretKey options w) as [[result|e|] w1];
      [|discriminate..].
    apply IH in Hrun; [exact Hrun|].
    rewrite push_if_any_filter.
    apply Forall_app_2; [exact Hany|].
    apply Forall_forall; intros r Hr.
    apply list_elem_of_filter in Hr as [Hr _]; exact Hr.
Qed.

(** X10. Every result in the array [processAll] returns holds at
    least one payout. *)
Theorem every_result_settled_something (fuel : nat) (secretKey : string)
    (options : option RequestExtraOptions.t) (w w' : World Server)
    (results : list ProcessPendingResult.t) :
  processAll fuel secretKey options w = (Returned results, w') ->
  Forall settled_any results.
Proof. apply while_settled, Forall_nil_2. Qed.

Lemma while_never_done (secretKey : string)
    (options : option RequestExtraOptions.t) :
  (forall w : World Server,
     exists result w1,
       round secretKey options w = (Returned result, w1)
       /\ ProcessPendingResult.has_more result = true) ->
  forall (fuel : nat) (results : list ProcessPendingResult.t)
         (w : World Server),
    (processAll_while client solana fuel secretKey options results true w).1
    = Running.
Proof.
  intros Hmore; induction fuel as [|fuel IH]; intros results w;
    [reflexivity|].
  destruct (Hmore w) as (result & w1 & Hround & Hresult).
  rewrite (while_step _ _ _ _ _ _ _ _ _ Hround), Hresult; apply IH.
Qed.

(** X11. [processAll] has no bound of its own on the number of
    rounds: as long as each round returns with [has_more] true, whatever
    its status is, the loop goes on, so against a service on which
    every round does so it never returns. *)
Theorem no_bound_on_rounds (secretKey : string)
    (options : option RequestExtraOptions.t) :
  (forall w : World Server,
     exists result w1,
       round secretKey options w = (Returned result, w1)
       /\ ProcessPendingResult.has_more result = true) ->
  forall (fuel : nat) (w : World Server),
    (processAll fuel secretKey options w).1 = Running.
Proof. intros Hmore fuel w; apply while_never_done, Hmore. Qed.

(** X12. [processBatch] begins with a list call for the pending
    payouts, whose limit is the limit the caller gave when this is
    below 10 and 10 otherwise: 0 and negative limits are passed on as
    they are, and so is [NaN]. *)
Theorem limit_is_capped_not_raised (secretKey : string) (limit : number)
    (requestOptions : option RequestExtraOptions.t) (w : World Server) :
  exists rest,
    trace (processBatch secretKey
             (Some {| BatchOptions.limit := Some limit;
                      BatchOptions.requestOptions := requestOptions |}) w).2
    = trace w
      ++ ListCall
           (pending match limit with
                    | Num n => Num (if n <? 10 then n else 10)
                    | NaN => NaN
                    end)
           requestOptions :: rest.
Proof.
  unfold Payouts.processBatch, bind, Payouts.list_, Payouts.build,
    Payouts.broadcast, Payouts.SignTransaction, local, request.
  cbn [mbind option_bind BatchOptions.requestOptions BatchOptions.limit].
  assert (effective_limit
            (Some {| BatchOptions.limit := Some limit;
                     BatchOptions.requestOptions := requestOptions |})
          = match limit with
            | Num n => Num (if n <? 10 then n else 10)
            | NaN => NaN
            end) as ->.
  { destruct limit as [n|]; [|reflexivity].
    unfold effective_limit; simpl; f_equal.
    destruct (Z.ltb_spec n 10); lia. }
  destruct (Get_payouts client _ requestOptions (server w)) as [[e|page] s1];
    cbn [server trace]; [exists []; reflexivity|].
  destruct (length (ListResponse.data page) =? 0)%nat;
    [exists []; reflexivity|].
  unfold bind; cbn [server trace].
  destruct (Post_payouts_build client _ requestOptions s1)
    as [[e|built] s2]; cbn [server trace];
    [eexists; rewrite <- app_assoc; reflexivity|].
  destruct (signed solana _ secretKey) as [e|signedTransaction];
    cbn [server trace];
    [eexists; rewrite <- !app_assoc; reflexivity|].
  destruct (Post_payouts_broadcast client _ requestOptions s2)
    as [[e|sent] s3]; cbn [server trace];
    eexists; rewrite <- !app_assoc; reflexivity.
Qed.

End Resource.

(** *** The query of [list] *)

Lemma set_defined_eq (key : string) (value : option number)
    (query : gmap string QueryValue) :
  set_defined key value query !! key
  = match value with
    | Some n => Some (QNumber n)
    | None => query !! key
    end.
Proof. destruct value; [apply lookup_insert_eq|reflexivity]. Qed.

Lemma set_defined_ne (key k : string) (value : option number)
    (query : gmap string QueryValue) :
  key <> k -> set_defined key value query !! k = query !! k.
Proof. intros Hne; destruct value; [apply lookup_insert_ne, Hne|reflexivity]. Qed.

Ltac query_lookup :=
  repeat first
    [ rewrite lookup_insert_eq
    | rewrite lookup_insert_ne by (discriminate || congruence)
    | rewrite set_defined_ne by (discriminate || congruence)
    | rewrite set_defined_eq
    | rewrite lookup_empty ].

(** X13. The query [BuildQuery] makes for [list] always has the keys
    [limit], [starting_after], [ending_before], [destination] and
    [status], with the value [undefined] for those the caller left out;
    it has the key [arrival_date[gt]] exactly when the caller gave that
    bound, with the bound as value, and likewise for the other seven
    bounds; and it has no other key. *)
Theorem query_of_a_list (params : ListPayoutsInput.t) :
  let query := BuildQuery params in
  let arrival_date (side : Range.t -> option number) :=
    QNumber <$> (ListPayoutsInput.arrival_date params ≫= side) in
  let created (side : Range.t -> option number) :=
    QNumber <$> (ListPayoutsInput.created params ≫= side) in
  query !! "limit"%string = Some (qnumber (ListPayoutsInput.limit params))
  /\ query !! "starting_after"%string
     = Some (qstring (ListPayoutsInput.starting_after params))
  /\ query !! "ending_before"%string
     = Some (qstring (ListPayoutsInput.ending_before params))
  /\ query !! "destination"%string
     = Some (qstring (ListPayoutsInput.destination params))
  /\ query !! "status"%string
     = Some (qstring (ListPayoutsInput.status params))
  /\ query !! "arrival_date[gt]"%string = arrival_date Range.gt
  /\ query !! "arrival_date[gte]"%string = arrival_date Range.gte
  /\ query !! "arrival_date[lt]"%string = arrival_date Range.lt
  /\ query !! "arrival_date[lte]"%string = arrival_date Range.lte
  /\ query !! "created[gt]"%string = created Range.gt
  /\ query !! "created[gte]"%string = created Range.gte
  /\ query !! "created[lt]"%string = created Range.lt
  /\ query !! "created[lte]"%string = created Range.lte
  /\ forall key : string,
       key ∉ ["limit"; "starting_after"; "ending_before"; "destination";
              "status"; "arrival_date[gt]"; "arrival_date[gte]";
              "arrival_date[lt]"; "arrival_date[lte]"; "created[gt]";
              "created[gte]"; "created[lt]"; "created[lte]"]%string ->
       query !! key = None.
Proof.
  destruct params as [limit starting_after ending_before destination status
                        arrival created].
  unfold BuildQuery;
    cbn [ListPayoutsInput.limit ListPayoutsInput.starting_after
         ListPayoutsInput.ending_before ListPayoutsInput.destination
         ListPayoutsInput.status ListPayoutsInput.arrival_date
         ListPayoutsInput.created].
  destruct arrival as [[agt agte alt alte]|],
           created as [[cgt cgte clt clte]|];
    cbn [mbind option_bind Range.gt Range.gte Range.lt Range.lte fmap option_fmap option_map];
    repeat split; query_lookup;
    try match goal with
      | |- forall key : string, _ =>
          intros key Hkey;
          repeat first
            [ rewrite lookup_insert_ne
                by (intros <-; apply Hkey; repeat constructor)
            | rewrite set_defined_ne
                by (intros <-; apply Hkey; repeat constructor)
            | rewrite lookup_empty ]
      end;
    repeat match goal with
      | |- context [match ?x with Some _ => _ | None => _ end] => destruct x
      end;
    query_lookup; try reflexivity.
Qed.

(** An unfunded wallet: the round ends with the refusal of the build
    request.  An empty secret key: the round ends at the signature,
    after the list and the build requests, and the service is as the
    build request left it. *)
Lemma failure_before_broadcast_witness :
  (exists w2,
     Payouts.processBatch Services.unfunded Sample.solana "key" None
       (Sample.world 3 10 None)
     = (Thrown (Sample.invalid "Insufficient funds"), w2)
     /\ map identifiers (trace w2)
        = [ []; ["po_1"; "po_2"; "po_3"] ]%string)
  /\ (exists w3,
        Payouts.processBatch Sample.client Sample.solana "" None
          (Sample.world 3 10 None)
        = (Thrown (Error "Non-base58 character"), w3)
        /\ server w3 = server (Sample.world 3 10 None)
        /\ map identifiers (trace w3)
           = [ []; ["po_1"; "po_2"; "po_3"]; [] ]%string).
Proof.
  split.
  - edestruct (failure_before_broadcast Services.unfunded Sample.solana "key"
                 None (Sample.world 3 10 None)) as [Hbuild _].
    + vm_compute; reflexivity.
    + discriminate.
    + edestruct Hbuild as [Hthrown Htrace]; [vm_compute; reflexivity|].
      eexists; split; [exact Hthrown|].
      rewrite Htrace; reflexivity.
  - edestruct (failure_before_broadcast Sample.client Sample.solana ""
                 None (Sample.world 3 10 None)) as [_ Hsign].
    + vm_compute; reflexivity.
    + discriminate.
    + edestruct Hsign as (w3 & Hthrown & Hserver & Htrace);
        [vm_compute; reflexivity|reflexivity|].
      exists w3; split; [exact Hthrown|split; [exact Hserver|]].
      rewrite Htrace; reflexivity.
Defined.

(** Nothing is pending: [processAll] returns the empty array after one
    list request, whatever the secret key is. *)
Lemma nothing_to_settle_witness :
  exists w1,
    Payouts.processAll Sample.client Sample.solana 1 "" None
      (Sample.world 0 10 None) = (Returned [], w1)
    /\ trace w1 = [ListCall (pending (Num 10)) None].
Proof.
  eexists.
  eapply (nothing_to_settle Sample.client Sample.solana 0 "" None
            (Sample.world 0 10 None)).
  - reflexivity.
  - reflexivity.
Defined.

(** Five payouts are pending and the pages hold 2: each of the three
    results returned settled payouts. *)
Lemma every_result_settled_something_witness :
  exists results w',
    Payouts.processAll Sample.client Sample.solana 4 "key" None
      (Sample.world 5 2 None) = (Returned results, w')
    /\ length results = 3%nat
    /\ Forall settled_any results.
Proof.
  do 2 eexists; split; [vm_compute; reflexivity|split; [reflexivity|]].
  eapply (every_result_settled_something Sample.client Sample.solana 4
            "key" None (Sample.world 5 2 None)).
  vm_compute; reflexivity.
Defined.

(** The service that is never done keeps the loop going: 25 iterations
    do not end it. *)
Lemma no_bound_on_rounds_witness :
  (Payouts.processAll Services.busy Sample.solana 25 "key" None
     {| server := tt; trace := [] |}).1 = Running.
Proof.
  apply (no_bound_on_rounds Services.busy Sample.solana "key" None).
  intros [[] steps]; do 2 eexists; split; [vm_compute; reflexivity|reflexivity].
Defined.

End PayoutEdges.
(* ================================================================= *)
(** ** HttpClient.ts and the constructor of index.ts *)

Module HttpProperties.

Import Js Http.

Lemma without_final_slash_app (base : string) :
  without_final_slash (base ++ "/") = base.
Proof.
  induction base as [|c base IH]; [reflexivity|].
  destruct base as [|d base]; [reflexivity|].
  change (without_final_slash (String c (String d base) ++ "/"))
    with (String c (without_final_slash (String d base ++ "/"))).
  rewrite IH; reflexivity.
Qed.

Lemma without_final_slash_same (base : string) :
  (forall b : string, base <> (b ++ "/")%string) ->
  without_final_slash base = base.
Proof.
  induction base as [|c base IH]; intros Hend; [reflexivity|].
  destruct base as [|d base].
  - cbn [without_final_slash].
    destruct (Ascii.eqb_spec c "/") as [->|Hc]; [|reflexivity].
    destruct (Hend ""%string); reflexivity.
  - change (without_final_slash (String c (String d base)))
      with (String c (without_final_slash (String d base))).
    rewrite IH; [reflexivity|].
    intros b Hb; apply (Hend (String c b)); rewrite Hb; reflexivity.
Qed.

Section Client.

Variable URL : Type.
Variable URL_new : string -> option URL.
Variable searchParams_set : string -> string -> URL -> URL.
Variable URL_toString : URL -> string.
Variable AbortSignal : Type.
Variable AbortSignal_timeout : number -> option AbortSignal.
Variable JSON_stringify : json -> string.
Variable fetch : string -> RequestInit AbortSignal -> string + Response.t.

Abbreviation BuildUrl :=
  (Http.BuildUrl URL URL_new searchParams_set URL_toString).
Abbreviation Request :=
  (Http.Request URL URL_new searchParams_set URL_toString
     AbortSignal AbortSignal_timeout JSON_stringify fetch).
Abbreviation Get :=
  (Http.Get URL URL_new searchParams_set URL_toString
     AbortSignal AbortSignal_timeout JSON_stringify fetch).
Abbreviation Post :=
  (Http.Post URL URL_new searchParams_set URL_toString
     AbortSignal AbortSignal_timeout JSON_stringify fetch).
Abbreviation Delete :=
  (Http.Delete URL URL_new searchParams_set URL_toString
     AbortSignal AbortSignal_timeout JSON_stringify fetch).

Lemma foldl_defined (entries : list (string * Payouts.QueryValue)) :
  forall url : URL,
    foldl (BuildUrl_entry URL searchParams_set) url entries
    = foldl (fun url parameter => searchParams_set parameter.1 parameter.2 url)
        url (defined (Some entries)).
Proof.
  unfold defined; simpl.
  induction entries as [|[key value] entries IH]; intros url; [reflexivity|].
  cbn [foldl omap list_omap]; rewrite IH.
  destruct value; reflexivity.
Qed.

Lemma BuildUrl_defined (config : Config.t) (path : string)
    (query : option (list (string * Payouts.QueryValue))) :
  BuildUrl config path query
  = (fun url =>
       URL_toString
         (foldl (fun url parameter =>
                   searchParams_set parameter.1 parameter.2 url)
            url (defined query)))
    <$> URL_new (without_final_slash (Config.baseUrl config)
                 ++ "/v1" ++ path)%string.
Proof.
  unfold Http.BuildUrl.
  destruct (URL_new _) as [url|]; [|reflexivity].
  destruct query as [entries|]; [|reflexivity].
  simpl; rewrite foldl_defined; reflexivity.
Qed.

(** X14. [BuildUrl] parses the base URL without its final slash, if
    it has one, followed by [/v1] and the path, then sets one search
    parameter for each entry of the query whose value is not
    [undefined], in the order of the entries, the value as a text (for
    a number, which is a safe integer or [NaN], its decimal numeral or
    "NaN"); the entries that are [undefined] leave no trace.  A base URL
    given with a final slash and the same one given without yield the
    same URL. *)
Theorem url_of_a_request (apiKey base path : string) (timeout : number)
    (query : option (list (string * Payouts.QueryValue))) :
  exact_query query ->
  let written (text : string) :=
    (fun url =>
       URL_toString
         (foldl (fun url parameter =>
                   searchParams_set parameter.1 parameter.2 url)
            url (defined query)))
    <$> URL_new text in
  BuildUrl {| Config.apiKey := apiKey;
              Config.baseUrl := base ++ "/";
              Config.timeout := timeout |} path query
  = written (base ++ "/v1" ++ path)%string
  /\ ((forall b : string, base <> (b ++ "/")%string) ->
      BuildUrl {| Config.apiKey := apiKey;
                  Config.baseUrl := base;
                  Config.timeout := timeout |} path query
      = written (base ++ "/v1" ++ path)%string).
Proof.
  intros _ written; split; [|intros Hend]; rewrite BuildUrl_defined; simpl.
  - rewrite without_final_slash_app; reflexivity.
  - rewrite without_final_slash_same by exact Hend; reflexivity.
Qed.

Variable config : Config.t.

(** The headers of a request, before and after the two options. *)
Lemma set_if_given_lookup (key : string) (value : option string)
    (headers : gmap string string) (k : string) :
  set_if_given key value headers !! k
  = if bool_decide (k = key) && from_option truthy false value
    then value else headers !! k.
Proof.
  unfold set_if_given.
  destruct value as [text|]; simpl; [|rewrite andb_false_r; reflexivity].
  destruct (truthy text); [|rewrite andb_false_r; reflexivity].
  rewrite andb_true_r.
  case_bool_decide as Hk.
  - subst k; apply lookup_insert_eq.
  - apply lookup_insert_ne; congruence.
Qed.

Lemma Request_calls (options : RequestOptions.t) :
  (Request config options).1 = []
  \/ exists url signal,
       (Request config options).1
       = [(url,
           {| method := RequestOptions.method options;
              headers :=
                set_if_given "zoneless-account"
                  (RequestOptions.zonelessAccount options)
                  (set_if_given "idempotency-key"
                     (RequestOptions.idempotencyKey options)
                     (spread
                        (<["Content-Type"%string := "application/json"%string]>
                           (<["x-api-key"%string := Config.apiKey config]> ∅))
                        (RequestOptions.headers options)));
              signal := signal;
              body :=
                if truthy_value (RequestOptions.body options)
                   && bool_decide (RequestOptions.method options <> GET)
                then JSON_stringify <$> RequestOptions.body options
                else None |})].
Proof.
  unfold Http.Request.
  destruct (Http.BuildUrl _ _ _ _ _ _ _) as [url|]; [|left; reflexivity].
  destruct (AbortSignal_timeout _) as [signal|]; [|left; reflexivity].
  right; exists url, signal; reflexivity.
Qed.

Lemma headers_lookup (options : RequestOptions.t) :
  let given := from_option id ∅ (RequestOptions.headers options) in
  let option_or_header (option : option string) (key : string) :=
    if from_option truthy false option then option else given !! key in
  let sent :=
    set_if_given "zoneless-account"
      (RequestOptions.zonelessAccount options)
      (set_if_given "idempotency-key"
         (RequestOptions.idempotencyKey options)
         (spread
            (<["Content-Type"%string := "application/json"%string]>
               (<["x-api-key"%string := Config.apiKey config]> ∅))
            (RequestOptions.headers options))) in
  sent !! "x-api-key"%string
  = Some (default (Config.apiKey config) (given !! "x-api-key"%string))
  /\ sent !! "Content-Type"%string
     = Some (default "application/json"%string
               (given !! "Content-Type"%string))
  /\ sent !! "idempotency-key"%string
     = option_or_header (RequestOptions.idempotencyKey options)
         "idempotency-key"%string
  /\ sent !! "zoneless-account"%string
     = option_or_header (RequestOptions.zonelessAccount options)
         "zoneless-account"%string
  /\ forall key : string,
       key ∉ ["x-api-key"; "Content-Type"; "idempotency-key";
              "zoneless-account"]%string ->
       sent !! key = given !! key.
Proof.
  intros given option_or_header sent; subst sent.
  unfold spread; fold given.
  assert (forall key : string,
            (given
             ∪ <["Content-Type"%string := "application/json"%string]>
                 (<["x-api-key"%string := Config.apiKey config]> ∅)) !! key
            = match given !! key with
              | Some text => Some text
              | None =>
                  if bool_decide (key = "Content-Type"%string)
                  then Some "application/json"%string
                  else if bool_decide (key = "x-api-key"%string)
                       then Some (Config.apiKey config) else None
              end) as Hspread.
  { intros key; rewrite lookup_union.
    destruct (given !! key) as [text|]; simpl.
    - destruct (_ !! key); reflexivity.
    - rewrite (left_id None _).
      case_bool_decide as Hct; [subst key; apply lookup_insert_eq|].
      rewrite lookup_insert_ne by congruence.
      case_bool_decide as Hkey; [subst key; apply lookup_insert_eq|].
      rewrite lookup_insert_ne by congruence; apply lookup_empty. }
  repeat split.
  - rewrite !set_if_given_lookup, Hspread; simpl.
    destruct (given !! "x-api-key"%string); reflexivity.
  - rewrite !set_if_given_lookup, Hspread; simpl.
    destruct (given !! "Content-Type"%string); reflexivity.
  - rewrite !set_if_given_lookup, Hspread; simpl.
    unfold option_or_header.
    destruct (from_option truthy false (RequestOptions.idempotencyKey options));
      [reflexivity|].
    destruct (given !! "idempotency-key"%string); reflexivity.
  - rewrite !set_if_given_lookup, Hspread; simpl.
    unfold option_or_header.
    destruct (from_option truthy false (RequestOptions.zonelessAccount options));
      [reflexivity|].
    destruct (given !! "zoneless-account"%string); reflexivity.
  - intros key Hkey.
    rewrite !set_if_given_lookup, Hspread.
    rewrite !bool_decide_eq_false_2; simpl;
      try (intros ->; apply Hkey; repeat constructor).
    destruct (given !! key); reflexivity.
Qed.

(** X15. The headers [Request] hands to [fetch]: [x-api-key] is the
    header of that name the caller gave, and the API key of the client
    otherwise; [Content-Type] is the caller's, and [application/json]
    otherwise; [idempotency-key] and [zoneless-account] are the values
    of the options of these names when these are not empty, and the
    caller's headers otherwise; every other header is the caller's. *)
Theorem headers_of_a_request (options : RequestOptions.t) :
  let given := from_option id ∅ (RequestOptions.headers options) in
  let option_or_header (option : option string) (key : string) :=
    if from_option truthy false option then option else given !! key in
  Forall
    (fun call : string * RequestInit AbortSignal =>
       headers call.2 !! "x-api-key"%string
       = Some (default (Config.apiKey config) (given !! "x-api-key"%string))
       /\ headers call.2 !! "Content-Type"%string
          = Some (default "application/json"%string
                    (given !! "Content-Type"%string))
       /\ headers call.2 !! "idempotency-key"%string
          = option_or_header (RequestOptions.idempotencyKey options)
              "idempotency-key"%string
       /\ headers call.2 !! "zoneless-account"%string
          = option_or_header (RequestOptions.zonelessAccount options)
              "zoneless-account"%string
       /\ forall key : string,
            key ∉ ["x-api-key"; "Content-Type"; "idempotency-key";
                   "zoneless-account"]%string ->
            headers call.2 !! key = given !! key)
    (Request config options).1.
Proof.
  intros given option_or_header.
  destruct (Request_calls options) as [->|(url & signal & ->)];
    [apply Forall_nil_2|].
  apply Forall_cons_2; [|apply Forall_nil_2].
  apply headers_lookup.
Qed.

(** X16. [Get] and [Delete] send no body and do not send the
    idempotency key of the options (the header [idempotency-key] is
    sent only if the caller wrote it among the headers); [Post] sends
    the body as [JSON.stringify] writes it and, when the idempotency key
    of the options is not empty, that key. *)
Theorem only_post_sends_key_and_body (path : string)
    (query : option (list (string * Payouts.QueryValue)))
    (body : option json) (options : option Payouts.RequestExtraOptions.t) :
  let given :=
    from_option id ∅ (options ≫= Payouts.RequestExtraOptions.headers) in
  let key := options ≫= Payouts.RequestExtraOptions.idempotencyKey in
  Forall
    (fun call : string * RequestInit AbortSignal =>
       Http.method call.2 = GET
       /\ Http.body call.2 = None
       /\ headers call.2 !! "idempotency-key"%string
          = given !! "idempotency-key"%string)
    (Get config path query options).1
  /\ Forall
       (fun call : string * RequestInit AbortSignal =>
          Http.method call.2 = DELETE
          /\ Http.body call.2 = None
          /\ headers call.2 !! "idempotency-key"%string
             = given !! "idempotency-key"%string)
       (Delete config path options).1
  /\ Forall
       (fun call : string * RequestInit AbortSignal =>
          Http.method call.2 = POST
          /\ Http.body call.2
             = (if truthy_value body then JSON_stringify <$> body else None)
          /\ headers call.2 !! "idempotency-key"%string
             = if from_option truthy false key then key
               else given !! "idempotency-key"%string)
       (Post config path body options).1.
Proof.
  intros given key; split; [|split].
  - unfold Http.Get.
    match goal with |- context [Request config ?r] => set (request := r) end.
    pose proof (headers_lookup request) as (_ & _ & Hkey & _).
    destruct (Request_calls request) as [->|(url & signal & ->)];
      [apply Forall_nil_2|].
    apply Forall_cons_2; [|apply Forall_nil_2].
    split; [reflexivity|split; [reflexivity|exact Hkey]].
  - unfold Http.Delete.
    match goal with |- context [Request config ?r] => set (request := r) end.
    pose proof (headers_lookup request) as (_ & _ & Hkey & _).
    destruct (Request_calls request) as [->|(url & signal & ->)];
      [apply Forall_nil_2|].
    apply Forall_cons_2; [|apply Forall_nil_2].
    split; [reflexivity|split; [reflexivity|exact Hkey]].
  - unfold Http.Post.
    match goal with |- context [Request config ?r] => set (request := r) end.
    pose proof (headers_lookup request) as (_ & _ & Hkey & _).
    destruct (Request_calls request) as [->|(url & signal & ->)];
      [apply Forall_nil_2|].
    apply Forall_cons_2; [|apply Forall_nil_2].
    split; [reflexivity|split; [|exact Hkey]].
    cbn [snd Http.body RequestOptions.body RequestOptions.method request].
    rewrite andb_true_r; reflexivity.
Qed.

Lemma Request_outcome (options : RequestOptions.t) :
  match (Request config options).1 with
  | [] =>
      (Request config options).2 = inl InvalidUrl
      \/ (Request config options).2 = inl InvalidTimeout
  | call :: others =>
      others = []
      /\ (Request config options).2
         = match fetch call.1 call.2 with
           | inr response => received response
           | inl reason => inl (Rejected reason)
           end
  end.
Proof.
  unfold Http.Request.
  destruct (Http.BuildUrl _ _ _ _ _ _ _) as [url|]; [|left; reflexivity].
  destruct (AbortSignal_timeout _) as [signal|]; [|right; reflexivity].
  split; reflexivity.
Qed.

(** X17. [Request] returns a value exactly when it called [fetch],
    once, [fetch] resolved with a response that is ok and whose body
    is JSON; the value is that body, as it is.  It never returns a
    value for a response that is not ok. *)
Theorem returns_the_body_of_an_ok_response (options : RequestOptions.t)
    (data : json) :
  (Request config options).2 = inr data
  <-> exists url init response,
        (Request config options).1 = [(url, init)]
        /\ fetch url init = inr response
        /\ Response.ok response = true
        /\ Response.json response = Some data.
Proof.
  pose proof (Request_outcome options) as Hout.
  destruct (Request config options).1 as [|[url init] others].
  { split; [intros Hdata|intros (? & ? & ? & ? & _); discriminate].
    destruct Hout as [Hout|Hout]; congruence. }
  destruct Hout as [-> ->]; cbn [fst snd].
  split.
  - destruct (fetch url init) as [reason|response] eqn:Hfetch;
      [discriminate|].
    unfold received.
    destruct (Response.json response) as [body|] eqn:Hjson; [|discriminate].
    destruct (Response.ok response) eqn:Hok; simpl.
    + intros [= ->]; exists url, init, response; auto.
    + destruct body; discriminate.
  - intros (url' & init' & response & [= <- <-] & -> & Hok & Hjson).
    unfold received; rewrite Hjson, Hok; reflexivity.
Qed.

(** X18. When the body of the response is not JSON, [Request] throws
    a [ZonelessApiError] of type [api_error] whose message holds the
    status and the status text and whose [statusCode] is the status,
    also when the response is ok (a 204 without content, for one). *)
Theorem body_that_is_not_json (options : RequestOptions.t)
    (response : Response.t) :
  (fun call => fetch call.1 call.2) <$> head (Request config options).1
  = Some (inr response) ->
  Response.json response = None ->
  (Request config options).2
  = inl (ZonelessApiError
           {| ZonelessError.type := JString "api_error";
              ZonelessError.message :=
                JString ("Invalid response from API: "
                         ++ toString (Num (Response.status response))
                         ++ " " ++ Response.statusText response);
              ZonelessError.code := None;
              ZonelessError.param := None;
              ZonelessError.statusCode := Response.status response |}).
Proof.
  intros Hfetch Hjson.
  pose proof (Request_outcome options) as Hout.
  destruct (Request config options).1 as [|call others]; [discriminate|].
  destruct Hout as [_ ->]; injection Hfetch as ->.
  unfold received; rewrite Hjson; reflexivity.
Qed.

Lemma or_text_priority (a : option json) (text : string) :
  truthy text = true ->
  truthy_value (Some (or_text a text)) = true
  /\ if truthy_value a then Some (or_text a text) = a
     else or_text a text = JString text.
Proof.
  intros Htext; unfold or_text.
  destruct a as [x|]; [|split; [exact Htext|reflexivity]].
  destruct (truthy_value (Some x)) eqn:Hx.
  - split; [exact Hx|reflexivity].
  - split; [exact Htext|reflexivity].
Qed.

(** X19. For a response that is not ok and whose body is JSON,
    [Request] throws: when the body is [null], the error of reading a
    property of [null]; otherwise a [ZonelessApiError] with the status
    of the response as [statusCode].  The type and the message of that
    error are never empty.  The type is the [type] of the [error]
    member of the body when this is not empty, and [api_error]
    otherwise.  The message is the [message] of the [error] member
    when this is not empty; otherwise the [message] of the body when
    this is not empty; otherwise "An error occurred".  [code] and
    [param] are those of the [error] member. *)
Theorem error_of_a_refusal (options : RequestOptions.t)
    (response : Response.t) (data : json) :
  (fun call => fetch call.1 call.2) <$> head (Request config options).1
  = Some (inr response) ->
  Response.ok response = false ->
  Response.json response = Some data ->
  let errorData := member "error" data in
  (data = JNull -> (Request config options).2 = inl PropertyOfNull)
  /\ (data <> JNull ->
      exists error,
        (Request config options).2 = inl (ZonelessApiError error)
        /\ ZonelessError.statusCode error = Response.status response
        /\ truthy_value (Some (ZonelessError.type error)) = true
        /\ truthy_value (Some (ZonelessError.message error)) = true
        /\ (if truthy_value (optional_member "type" errorData)
            then Some (ZonelessError.type error)
                 = optional_member "type" errorData
            else ZonelessError.type error = JString "api_error")
        /\ (if truthy_value (optional_member "message" errorData)
            then Some (ZonelessError.message error)
                 = optional_member "message" errorData
            else if truthy_value (member "message" data)
                 then Some (ZonelessError.message error)
                      = member "message" data
                 else ZonelessError.message error
                      = JString "An error occurred")
        /\ ZonelessError.code error = optional_member "code" errorData
        /\ ZonelessError.param error = optional_member "param" errorData).
Proof.
  intros Hfetch Hok Hjson errorData.
  pose proof (Request_outcome options) as Hout.
  destruct (Request config options).1 as [|call others]; [discriminate|].
  destruct Hout as [_ ->]; injection Hfetch as ->.
  unfold received; rewrite Hjson, Hok; cbn [negb].
  split; [intros ->; reflexivity|intros Hdata].
  eexists; split; [destruct data; try reflexivity; contradiction|].
  cbn [ZonelessError.statusCode ZonelessError.type ZonelessError.message
       ZonelessError.code ZonelessError.param].
  fold errorData.
  destruct (or_text_priority (optional_member "type" errorData)
              "api_error" eq_refl) as [Htype Htype'].
  destruct (or_text_priority
              (or_else (optional_member "message" errorData)
                       (member "message" data))
              "An error occurred" eq_refl) as [Hmessage Hmessage'].
  split; [reflexivity|].
  split; [exact Htype|].
  split; [exact Hmessage|].
  split; [exact Htype'|].
  split; [|split; reflexivity].
  revert Hmessage'; unfold or_else.
  destruct (truthy_value (optional_member "message" errorData)) eqn:Hgiven;
    [rewrite Hgiven|]; intros Hmessage'; exact Hmessage'.
Qed.

(** X20. [new Zoneless(apiKey, baseUrl, config)] gives an instance
    only for an API key and a base URL that are not empty.  Every
    request the client of the instance sends is given the signal
    [AbortSignal.timeout(config.timeout ?? 30000)], so a timeout of 0
    is kept, not replaced by the default; and it carries the API key in
    the header [x-api-key] when the caller gives no headers. *)
Theorem client_of_an_instance (apiKey baseUrl : string)
    (given : option Zoneless.ZonelessConfig) (client : Config.t) :
  Zoneless.new_Zoneless apiKey baseUrl given = inr client ->
  truthy apiKey = true
  /\ truthy baseUrl = true
  /\ forall options : RequestOptions.t,
       Forall
         (fun call : string * RequestInit AbortSignal =>
            Some (signal call.2)
            = AbortSignal_timeout
                (default (Num 30000) (given ≫= Zoneless.timeout))
            /\ (RequestOptions.headers options = None ->
                headers call.2 !! "x-api-key"%string = Some apiKey))
         (Request client options).1.
Proof.
  unfold Zoneless.new_Zoneless.
  destruct (truthy apiKey); [|discriminate].
  destruct (truthy baseUrl); [|discriminate].
  intros [= <-]; split; [reflexivity|split; [reflexivity|]].
  intros options; unfold Http.Request.
  destruct (Http.BuildUrl _ _ _ _ _ _ _) as [url|]; [|apply Forall_nil_2].
  cbn [Config.timeout Config.apiKey new_HttpClient Http.timeout Http.apiKey].
  assert (nullish (Zoneless.timeout (nullish given {| Zoneless.timeout := None |}))
            (Num 30000)
          = default (Num 30000) (given ≫= Zoneless.timeout)) as ->.
  { destruct given as [[[t|]]|]; reflexivity. }
  destruct (AbortSignal_timeout _) as [signal|]; [|apply Forall_nil_2].
  apply Forall_cons_2; [|apply Forall_nil_2].
  split; [reflexivity|intros Hnone].
  cbn [snd headers].
  rewrite !set_if_given_lookup; simpl.
  unfold spread; rewrite Hnone; simpl.
  rewrite (left_id ∅ _), lookup_insert_ne by discriminate.
  apply lookup_insert_eq.
Qed.

End Client.

(** The base URL is written with or without a final slash; the
    parameter that is [undefined] is left out. *)
Lemma url_of_a_request_witness :
  Http.BuildUrl Platform.URL Platform.URL_new Platform.searchParams_set
    Platform.URL_toString
    {| Config.apiKey := "sk_test";
       Config.baseUrl := "https://api.example" ++ "/";
       Config.timeout := Num 30000 |}
    "/payouts"
    (Some [("limit"%string, Payouts.QNumber (Num 10));
           ("starting_after"%string, Payouts.QUndefined);
           ("status"%string, Payouts.QString "pending")])
  = Some "https://api.example/v1/payouts?limit=10&status=pending"%string
  /\ Http.BuildUrl Platform.URL Platform.URL_new Platform.searchParams_set
       Platform.URL_toString
       {| Config.apiKey := "sk_test";
          Config.baseUrl := "https://api.example";
          Config.timeout := Num 30000 |}
       "/payouts"
       (Some [("limit"%string, Payouts.QNumber (Num 10));
              ("starting_after"%string, Payouts.QUndefined);
              ("status"%string, Payouts.QString "pending")])
     = Some "https://api.example/v1/payouts?limit=10&status=pending"%string.
Proof.
  destruct (url_of_a_request Platform.URL Platform.URL_new
              Platform.searchParams_set Platform.URL_toString
              "sk_test" "https://api.example" "/payouts" (Num 30000)
              (Some [("limit"%string, Payouts.QNumber (Num 10));
                     ("starting_after"%string, Payouts.QUndefined);
                     ("status"%string, Payouts.QString "pending")]))
    as [Hslash Hplain].
  { repeat (apply Forall_cons_2; [JsProperties.in_range|]).
    apply Forall_nil_2. }
  split.
  - rewrite Hslash; reflexivity.
  - rewrite Hplain; [reflexivity|].
    intros b Hb.
    pose proof (f_equal without_final_slash Hb) as Hbase.
    rewrite without_final_slash_app in Hbase; subst b; discriminate.
Defined.

(** The health check is answered 204 without a body: [Request] throws,
    although the response is ok. *)
Lemma body_that_is_not_json_witness :
  (Http.Get Platform.URL Platform.URL_new Platform.searchParams_set
     Platform.URL_toString Z Platform.AbortSignal_timeout
     Platform.JSON_stringify Platform.fetch Platform.config
     "/health" None None).2
  = inl (ZonelessApiError
           {| ZonelessError.type := JString "api_error";
              ZonelessError.message :=
                JString "Invalid response from API: 204 No Content";
              ZonelessError.code := None;
              ZonelessError.param := None;
              ZonelessError.statusCode := 204 |}).
Proof.
  apply (body_that_is_not_json Platform.URL Platform.URL_new
           Platform.searchParams_set Platform.URL_toString Z
           Platform.AbortSignal_timeout Platform.JSON_stringify
           Platform.fetch Platform.config _
           {| Response.ok := true;
              Response.status := 204;
              Response.statusText := "No Content";
              Response.json := None |});
    reflexivity.
Defined.

(** The payout is unknown: the error thrown carries the status 404
    and the type, the message and the parameter of the body. *)
Lemma error_of_a_refusal_witness :
  exists error,
    (Http.Get Platform.URL Platform.URL_new Platform.searchParams_set
       Platform.URL_toString Z Platform.AbortSignal_timeout
       Platform.JSON_stringify Platform.fetch Platform.config
       "/payouts/po_gone" None None).2
    = inl (ZonelessApiError error)
    /\ ZonelessError.statusCode error = 404
    /\ Some (ZonelessError.type error)
       = Some (JString "invalid_request_error")
    /\ Some (ZonelessError.message error) = Some (JString "No such payout")
    /\ ZonelessError.code error = None
    /\ ZonelessError.param error = Some (JString "id").
Proof.
  destruct (error_of_a_refusal Platform.URL Platform.URL_new
              Platform.searchParams_set Platform.URL_toString Z
              Platform.AbortSignal_timeout Platform.JSON_stringify
              Platform.fetch Platform.config
              {| RequestOptions.method := GET;
                 RequestOptions.path := "/payouts/po_gone";
                 RequestOptions.body := None;
                 RequestOptions.query := None;
                 RequestOptions.headers := None;
                 RequestOptions.idempotencyKey := None;
                 RequestOptions.zonelessAccount := None |}
              _ _ eq_refl eq_refl eq_refl)
    as [_ Herror].
  destruct Herror
    as (error & Hthrown & Hstatus & _ & _ & Htype & Hmessage & Hcode & Hparam);
    [discriminate|].
  exists error; split; [exact Hthrown|].
  split; [exact Hstatus|].
  split; [exact Htype|].
  split; [exact Hmessage|].
  split; [exact Hcode|exact Hparam].
Defined.

(** An instance made with the timeout 0 keeps it, and sends its key. *)
Lemma client_of_an_instance_witness :
  truthy "sk_test" = true
  /\ truthy "https://api.example" = true
  /\ forall options : RequestOptions.t,
       Forall
         (fun call : string * RequestInit Z =>
            Some (signal call.2)
            = Platform.AbortSignal_timeout
                (default (Num 30000)
                   (Some {| Zoneless.timeout := Some (Num 0) |}
                    ≫= Zoneless.timeout))
            /\ (RequestOptions.headers options = None ->
                headers call.2 !! "x-api-key"%string = Some "sk_test"%string))
         (Http.Request Platform.URL Platform.URL_new
            Platform.searchParams_set Platform.URL_toString Z
            Platform.AbortSignal_timeout Platform.JSON_stringify
            Platform.fetch
            (new_HttpClient
               {| Http.apiKey := "sk_test";
                  Http.baseUrl := "https://api.example";
                  Http.timeout := Some (Num 0) |})
            options).1.
Proof.
  apply (client_of_an_instance Platform.URL Platform.URL_new
           Platform.searchParams_set Platform.URL_toString Z
           Platform.AbortSignal_timeout Platform.JSON_stringify
           Platform.fetch "sk_test" "https://api.example"
           (Some {| Zoneless.timeout := Some (Num 0) |})).
  reflexivity.
Defined.

End HttpProperties.

(* ================================================================= *)
(** ** [list], from its filters to the URL *)

Module ListingProperties.

Import Js Payouts Http Listing HttpProperties.

Lemma bound_key (key k : string) (value : option number) :
  k ∈ (bound key value).*1 -> k = key.
Proof.
  destruct value; simpl; [|intros H; destruct (not_elem_of_nil _ H)].
  intros H; apply list_elem_of_singleton in H; exact H.
Qed.

Lemma set_defined_snoc (key : string) (value : option number)
    (entries : list (string * QueryValue)) :
  key ∉ entries.*1 ->
  set_defined key value (list_to_map entries)
  = list_to_map (entries ++ bound key value).
Proof.
  intros Hkey; destruct value as [n|]; simpl.
  - symmetry; apply list_to_map_snoc, Hkey.
  - rewrite app_nil_r; reflexivity.
Qed.

Ltac fresh_key :=
  rewrite ?fmap_app, ?elem_of_app;
  intros Hin;
  repeat match goal with
    | H : _ \/ _ |- _ => destruct H as [H|H]
    | H : _ ∈ (bound _ _).*1 |- _ => apply bound_key in H; discriminate H
    | H : _ ∈ _ :: _ |- _ => apply elem_of_cons in H
    | H : _ ∈ [] |- _ => destruct (not_elem_of_nil _ H)
    | H : _ = _ |- _ => discriminate H
    end.

Lemma entries_of_the_query (params : ListPayoutsInput.t) :
  list_to_map (BuildQuery_entries params) = BuildQuery params.
Proof.
  destruct params as [limit starting_after ending_before destination status
                        arrival created].
  unfold BuildQuery, BuildQuery_entries;
    cbn [ListPayoutsInput.limit ListPayoutsInput.starting_after
         ListPayoutsInput.ending_before ListPayoutsInput.destination
         ListPayoutsInput.status ListPayoutsInput.arrival_date
         ListPayoutsInput.created].
  set (base := [("limit"%string, qnumber limit);
                ("starting_after"%string, qstring starting_after);
                ("ending_before"%string, qstring ending_before);
                ("destination"%string, qstring destination);
                ("status"%string, qstring status)]).
  change (<["limit"%string := qnumber limit]> _)
    with (list_to_map base : gmap string QueryValue).
  assert (base.*1 = ["limit"; "starting_after"; "ending_before";
                     "destination"; "status"]%string) as Hbase
    by reflexivity.
  destruct arrival as [[agt agte alt alte]|],
           created as [[cgt cgte clt clte]|];
    cbn [Range.gt Range.gte Range.lt Range.lte];
    rewrite ?app_nil_r;
    repeat (rewrite set_defined_snoc
              by (rewrite ?fmap_app, Hbase; fresh_key));
    rewrite <- ?app_assoc; reflexivity.
Qed.

Lemma defined_app (entries others : list (string * QueryValue)) :
  defined (Some (entries ++ others))
  = defined (Some entries) ++ defined (Some others).
Proof. apply omap_app. Qed.

Lemma defined_bound (key : string) (value : option number) :
  defined (Some (bound key value)) = given key (toString <$> value).
Proof. destruct value; reflexivity. Qed.

Lemma defined_entries (params : ListPayoutsInput.t) :
  defined (Some (BuildQuery_entries params)) = filters params.
Proof.
  destruct params as [[limit|] [starting_after|] [ending_before|]
                        [destination|] [status|] arrival created];
    unfold BuildQuery_entries, filters;
    cbn [ListPayoutsInput.limit ListPayoutsInput.starting_after
         ListPayoutsInput.ending_before ListPayoutsInput.destination
         ListPayoutsInput.status ListPayoutsInput.arrival_date
         ListPayoutsInput.created];
    rewrite defined_app;
    (destruct arrival as [arrival|], created as [created|];
     cbn [mbind option_bind];
     rewrite ?defined_app, ?defined_bound, ?app_nil_r, <- ?app_assoc);
    reflexivity.
Qed.

Section Client.

Variable URL : Type.
Variable URL_new : string -> option URL.
Variable searchParams_set : string -> string -> URL -> URL.
Variable URL_toString : URL -> string.
Variable AbortSignal : Type.
Variable AbortSignal_timeout : number -> option AbortSignal.
Variable JSON_stringify : json -> string.
Variable fetch : string -> RequestInit AbortSignal -> string + Response.t.
Variable config : Config.t.

(** X21. The limit and the bounds given to [list] are safe integers or
    [NaN].  The object [BuildQuery] returns has the properties the query
    map of [BuildQuery] holds, and the request [list] sends is a GET
    without a body to the URL made of the base URL without its final
    slash, of [/v1/payouts] and of one search parameter for each filter
    the caller gave, in the order [limit], [starting_after],
    [ending_before], [destination], [status], then the bounds of
    [arrival_date] and those of [created]: a filter that is left out is
    not sent, and [list()] sends no parameter at all. *)
Theorem list_sends_the_filters_given (params : option ListPayoutsInput.t)
    (options : option RequestExtraOptions.t) :
  let asked := nullish params no_filter in
  exact_filters asked ->
  list_to_map (BuildQuery_entries asked) = BuildQuery asked
  /\ Forall
       (fun call : string * RequestInit AbortSignal =>
          Http.method call.2 = GET
          /\ Http.body call.2 = None
          /\ Some call.1
             = (fun url =>
                  URL_toString
                    (foldl (fun url parameter =>
                              searchParams_set parameter.1 parameter.2 url)
                       url (filters asked)))
               <$> URL_new (without_final_slash (Config.baseUrl config)
                            ++ "/v1/payouts")%string)
       (list_ URL URL_new searchParams_set URL_toString AbortSignal
          AbortSignal_timeout JSON_stringify fetch config params options).1.
Proof.
  intros asked _; split; [apply entries_of_the_query|].
  unfold list_, Http.Get, Http.Request; fold asked.
  cbn [RequestOptions.path RequestOptions.query RequestOptions.method
       RequestOptions.body].
  rewrite BuildUrl_defined, defined_entries.
  destruct (URL_new _) as [url|]; [|apply Forall_nil_2].
  cbn [fmap option_fmap option_map].
  destruct (AbortSignal_timeout _) as [signal|]; [|apply Forall_nil_2].
  apply Forall_cons_2; [|apply Forall_nil_2].
  repeat split.
Qed.

End Client.

(** A page of 10 pending payouts is asked for: the two filters are the
    search parameters, and no other filter is sent. *)
Lemma list_sends_the_filters_given_witness :
  Forall
    (fun call : string * RequestInit Z =>
       Http.method call.2 = GET
       /\ Http.body call.2 = None
       /\ Some call.1
          = Some "https://api.example/v1/payouts?limit=10&status=pending"%string)
    (list_ Platform.URL Platform.URL_new Platform.searchParams_set
       Platform.URL_toString Z Platform.AbortSignal_timeout
       Platform.JSON_stringify Platform.fetch Platform.config
       (Some (pending (Num 10))) None).1.
Proof.
  refine (proj2 (list_sends_the_filters_given Platform.URL Platform.URL_new
                   Platform.searchParams_set Platform.URL_toString Z
                   Platform.AbortSignal_timeout Platform.JSON_stringify
                   Platform.fetch Platform.config
                   (Some (pending (Num 10))) None _)).
  vm_compute; repeat split; try exact I; discriminate.
Defined.

End ListingProperties.
